(** * vcon-create-backend: the email-thread upsert and fetch handlers

    A shallow embedding of [src/app.py] (with the table of [src/model.py])
    and the properties of its record builder, record merger and the two
    request handlers.

    Python dictionaries that the code uses as structs (a party descriptor,
    a dialog entry, the conversation record) are records; the dictionary
    the merger really uses as a map, [existing_bodies], is a [gmap]; the
    table [Conversation] is the list of its rows. *)

From stdpp Require Import base numbers list strings pretty gmap.

Local Open Scope string_scope.
Local Open Scope list_scope.

(** ** Timestamps: the part of Python's [datetime] the handlers use *)

Module datetime.

(** [datetime.timezone]: a fixed offset from UTC, in seconds east. *)
Definition timezone := Z.

Definition utc : timezone := 0%Z.

(** [datetime.datetime]; [tzinfo = None] is a naive timestamp. *)
Record t := mk {
  year : nat;
  month : nat;
  day : nat;
  hour : nat;
  minute : nat;
  second : nat;
  microsecond : nat;
  tzinfo : option timezone
}.

(** [dt.replace(tzinfo=tz)]: every wall-clock field is kept, only the
    attached zone changes. *)
Definition replace_tzinfo (dt : t) (tz : timezone) : t :=
  {| year := year dt; month := month dt; day := day dt;
     hour := hour dt; minute := minute dt; second := second dt;
     microsecond := microsecond dt; tzinfo := Some tz |}.

(** ["%0<w>d" % n] *)
Definition zfill (w : nat) (n : nat) : string :=
  let s := pretty n in
  String.concat "" (replicate (w - String.length s) "0") +:+ s.

(** The offset suffix of [isoformat]: [+HH:MM], with [:SS] only when the
    offset is not a whole number of minutes. *)
Definition format_offset (off : timezone) : string :=
  let sign := if bool_decide (off < 0)%Z then "-" else "+" in
  let a := Z.to_nat (Z.abs off) in
  let hh := a / 3600 in
  let mm := (a mod 3600) / 60 in
  let ss := a mod 60 in
  sign +:+ zfill 2 hh +:+ ":" +:+ zfill 2 mm +:+
  (if bool_decide (ss = 0) then "" else ":" +:+ zfill 2 ss).

(** [dt.isoformat()] *)
Definition isoformat (dt : t) : string :=
  zfill 4 (year dt) +:+ "-" +:+ zfill 2 (month dt) +:+ "-" +:+
  zfill 2 (day dt) +:+ "T" +:+
  zfill 2 (hour dt) +:+ ":" +:+ zfill 2 (minute dt) +:+ ":" +:+
  zfill 2 (second dt) +:+
  (if bool_decide (microsecond dt = 0) then ""
   else "." +:+ zfill 6 (microsecond dt)) +:+
  match tzinfo dt with
  | None => ""
  | Some off => format_offset off
  end.

(** The proleptic Gregorian ordinal of a date ([date.toordinal]). *)
Definition is_leap (y : Z) : bool :=
  bool_decide (y mod 4 = 0)%Z &&
  (negb (bool_decide (y mod 100 = 0)%Z) || bool_decide (y mod 400 = 0)%Z).

Definition days_before_year (y : Z) : Z :=
  let y1 := (y - 1)%Z in
  (y1 * 365 + y1 / 4 - y1 / 100 + y1 / 400)%Z.

Definition days_in_month (y : Z) (m : nat) : Z :=
  match m with
  | 2 => if is_leap y then 29%Z else 28%Z
  | 4 | 6 | 9 | 11 => 30%Z
  | _ => 31%Z
  end.

Definition days_before_month (y : Z) (m : nat) : Z :=
  foldr (λ k acc, (days_in_month y k + acc)%Z) 0%Z (seq 1 (m - 1)).

Definition toordinal (dt : t) : Z :=
  (days_before_year (Z.of_nat (year dt))
   + days_before_month (Z.of_nat (year dt)) (month dt)
   + Z.of_nat (day dt))%Z.

(** The instant a timestamp denotes, in microseconds of UTC since the
    start of ordinal day 0.  A naive timestamp is read as UTC, which is
    how the handlers read it. *)
Definition utcoffset (dt : t) : Z := default 0%Z (tzinfo dt).

Definition instant (dt : t) : Z :=
  ((((toordinal dt * 24 + Z.of_nat (hour dt)) * 60
     + Z.of_nat (minute dt)) * 60
    + Z.of_nat (second dt) - utcoffset dt) * 1000000
   + Z.of_nat (microsecond dt))%Z.

End datetime.

(** ** The data model *)

(** A JSON object whose members this service never reads; the only one it
    ever writes is the empty object [{}]. *)
Abbreviation json_object := (gmap string string).

(** Modelled from the spec: the vcon library ([Party], [Dialog], [Vcon] and
    their JSON form) is a dependency that is not in the repository.  An
    object built with keyword arguments serialises to a JSON object holding
    exactly those members, and [add_party]/[add_dialog] append.  The three
    modules below are at once the library's objects and the JSON documents
    of the [vcon] column, so [to_dict] is not written out.

    A party descriptor, [{"email": ...}]. *)
Module Party.
Record t := mk { email : string }.
End Party.

(** A dialog (message) entry of a stored record.  [metadata] and [meta]
    are [None] when the entry has no such member: the entries written by
    the merger carry both, as empty objects. *)
Module Dialog.
Record t := mk {
  type : string;
  start : string;
  parties : list nat;
  originator : Z;
  mimetype : string;
  body : string;
  metadata : option json_object;
  meta : option json_object
}.

(** [d["body"] = b] and [d["start"] = s]: one member is assigned, the
    others are kept. *)
Definition set_body (b : string) (d : t) : t :=
  {| type := type d; start := start d; parties := parties d;
     originator := originator d; mimetype := mimetype d; body := b;
     metadata := metadata d; meta := meta d |}.

Definition set_start (s : string) (d : t) : t :=
  {| type := type d; start := s; parties := parties d;
     originator := originator d; mimetype := mimetype d; body := body d;
     metadata := metadata d; meta := meta d |}.
End Dialog.

(** The conversation record as it is stored in the [vcon] column.  The
    members the vcon library generates by itself (uuid, creation date,
    empty analysis and attachment lists) are neither read nor written by
    the handlers and are left out.  [thread_id] is the member that
    [VconExtended.to_dict] adds when it is not [None]. *)
Module Vcon.
Record t := mk {
  thread_id : option string;
  parties : list Party.t;
  dialog : list Dialog.t
}.

(** [VconExtended.build_new(thread_id=...)] *)
Definition build_new (thread_id : option string) : t :=
  {| thread_id := thread_id; parties := []; dialog := [] |}.

(** [vcon.add_party(p)] and [vcon.add_dialog(d)] append. *)
Definition add_party (v : t) (p : Party.t) : t :=
  {| thread_id := thread_id v; parties := parties v ++ [p];
     dialog := dialog v |}.

Definition add_dialog (v : t) (d : Dialog.t) : t :=
  {| thread_id := thread_id v; parties := parties v;
     dialog := dialog v ++ [d] |}.
End Vcon.

(** The request body, after validation by the framework. *)
Module DialogIn.
Record t := mk {
  originator_index : Z;
  body_snippet : string;
  last_modified : datetime.t
}.
End DialogIn.

Module EmailThreadRequest.
Record t := mk {
  thread_id : string;
  parties : list string;
  dialogs : list DialogIn.t
}.
End EmailThreadRequest.

(** A row of the table [Conversation] ([src/model.py]); the primary key
    [id] is generated by the database server and plays no part in the
    handlers. *)
Module Conversation.
Record t := mk {
  vcon : Vcon.t;
  threadId : string;
  createdAt : datetime.t;
  updatedAt : datetime.t
}.
End Conversation.

(** The database: the rows of [Conversation] in insertion order. *)
Abbreviation database := (list Conversation.t).

(** [HTTPException(status_code=..., detail=...)] and the body the
    framework sends for it. *)
Record HTTPException := { status_code : nat; detail : string }.

Definition error_body (e : HTTPException) : gmap string string :=
  {[ "detail" := detail e ]}.

(** ** The record builder *)

(** [dlg.last_modified.replace(tzinfo=datetime.timezone.utc).isoformat()],
    written out at both places of the source that compute it. *)
Definition dlg_start (dlg : DialogIn.t) : string :=
  datetime.isoformat
    (datetime.replace_tzinfo (DialogIn.last_modified dlg) datetime.utc).

(** [create_email_thread_vcon] ([src/app.py], lines 70-90): one party per
    email in input order, then one dialog per incoming entry, each with
    the index range of the request's parties. *)
Definition create_email_thread_vcon (req : EmailThreadRequest.t) : Vcon.t :=
  let vcon := Vcon.build_new (Some (EmailThreadRequest.thread_id req)) in
  let vcon :=
    foldl (λ v email, Vcon.add_party v (Party.mk email))
          vcon (EmailThreadRequest.parties req) in
  let party_indices := seq 0 (length (EmailThreadRequest.parties req)) in
  foldl (λ v dlg,
           Vcon.add_dialog v
             {| Dialog.type := "text";
                Dialog.start := dlg_start dlg;
                Dialog.parties := party_indices;
                Dialog.originator := DialogIn.originator_index dlg;
                Dialog.mimetype := "text/plain";
                Dialog.body := DialogIn.body_snippet dlg;
                Dialog.metadata := None;
                Dialog.meta := None |})
        vcon (EmailThreadRequest.dialogs req).

(** ** The record merger (the [if conversation:] branch) *)

(** The participant merge: [new_parties] is collected against the emails
    that were stored before the request, then appended. *)
Definition new_parties (existing_parties : list string)
    (incoming : list string) : list Party.t :=
  foldl (λ (acc : list Party.t) email,
           if bool_decide (email ∈ existing_parties) then acc
           else acc ++ [Party.mk email])
        [] incoming.

Definition merge_parties (existing_vcon : Vcon.t)
    (request : EmailThreadRequest.t) : Vcon.t :=
  let existing_parties := Party.email <$> Vcon.parties existing_vcon in
  {| Vcon.thread_id := Vcon.thread_id existing_vcon;
     Vcon.parties :=
       Vcon.parties existing_vcon
       ++ new_parties existing_parties (EmailThreadRequest.parties request);
     Vcon.dialog := Vcon.dialog existing_vcon |}.

(** The key of a stored message and of an incoming entry. *)
Definition dialog_key (d : Dialog.t) : string * string :=
  (Dialog.body d, Dialog.start d).

Definition dlg_tuple (dlg : DialogIn.t) : string * string :=
  (DialogIn.body_snippet dlg, dlg_start dlg).

(** [{(d.get("body"), d.get("start")): idx for idx, d in enumerate(ds)}]:
    the entries are inserted from left to right, so of two messages with
    the same key the later index stays. *)
Fixpoint existing_bodies_from (idx : nat) (ds : list Dialog.t)
    (acc : gmap (string * string) nat) : gmap (string * string) nat :=
  match ds with
  | [] => acc
  | d :: ds' => existing_bodies_from (S idx) ds' (<[dialog_key d := idx]> acc)
  end.

Definition existing_bodies (ds : list Dialog.t) : gmap (string * string) nat :=
  existing_bodies_from 0 ds ∅.

(** The entry the merger appends for an unmatched key. *)
Definition new_dialog (n_parties : nat) (dlg : DialogIn.t) : Dialog.t :=
  {| Dialog.type := "text";
     Dialog.start := dlg_start dlg;
     Dialog.parties := seq 0 n_parties;
     Dialog.originator := DialogIn.originator_index dlg;
     Dialog.mimetype := "text/plain";
     Dialog.body := DialogIn.body_snippet dlg;
     Dialog.metadata := Some ∅;
     Dialog.meta := Some ∅ |}.

(** One round of [for dlg in request.dialogs].  [bodies] is the table
    computed before the loop and never updated in it; [n_parties] is
    [len(existing_vcon["parties"])], which the loop does not change.  The
    index found in [bodies] comes from [enumerate] over a list that only
    grows ([existing_bodies_lt] below), so the assignment never raises
    [IndexError] and [alter] is the in-place update. *)
Definition merge_dialog (n_parties : nat) (bodies : gmap (string * string) nat)
    (existing_dialogs : list Dialog.t) (dlg : DialogIn.t) : list Dialog.t :=
  match bodies !! dlg_tuple dlg with
  | Some idx =>
      alter (λ d, Dialog.set_start (dlg_start dlg)
                    (Dialog.set_body (DialogIn.body_snippet dlg) d))
            idx existing_dialogs
  | None => existing_dialogs ++ [new_dialog n_parties dlg]
  end.

Definition merge_dialogs (existing_vcon : Vcon.t)
    (request : EmailThreadRequest.t) : Vcon.t :=
  let existing_dialogs := Vcon.dialog existing_vcon in
  let bodies := existing_bodies existing_dialogs in
  {| Vcon.thread_id := Vcon.thread_id existing_vcon;
     Vcon.parties := Vcon.parties existing_vcon;
     Vcon.dialog :=
       foldl (merge_dialog (length (Vcon.parties existing_vcon)) bodies)
             existing_dialogs (EmailThreadRequest.dialogs request) |}.

Definition merge_vcon (existing_vcon : Vcon.t)
    (request : EmailThreadRequest.t) : Vcon.t :=
  merge_dialogs (merge_parties existing_vcon request) request.

(** ** The request handlers *)

(** [db.query(Conversation).filter(Conversation.threadId == tid).first()]:
    the first row of the thread in the order of the list.  The query has
    no [ORDER BY] and the column no unique constraint, so this is the row
    the database returns when the thread has at most one row, that is when
    the [threadId] column has no repeat; statements that compare the rows
    found by two queries assume it. *)
Definition query_first (thread_id : string) (db : database)
    : option (nat * Conversation.t) :=
  list_find (λ c, Conversation.threadId c = thread_id) db.

(** [POST /vcon/email_thread].  [now] is the clock reading that
    [createdAt]/[updatedAt] receive.  The result is the committed table and
    the response, the [vcon] of the refreshed row. *)
Definition generate_email_vcon (request : EmailThreadRequest.t)
    (now : datetime.t) (db : database) : database * Vcon.t :=
  let vcon_dict := create_email_thread_vcon request in
  match query_first (EmailThreadRequest.thread_id request) db with
  | Some (i, conversation) =>
      let existing_vcon := merge_vcon (Conversation.vcon conversation) request in
      let conversation' :=
        {| Conversation.vcon := existing_vcon;
           Conversation.threadId := Conversation.threadId conversation;
           Conversation.createdAt := Conversation.createdAt conversation;
           Conversation.updatedAt := now |} in
      (<[i := conversation']> db, existing_vcon)
  | None =>
      let conversation :=
        {| Conversation.vcon := vcon_dict;
           Conversation.threadId := EmailThreadRequest.thread_id request;
           Conversation.createdAt := now;
           Conversation.updatedAt := now |} in
      (db ++ [conversation], vcon_dict)
  end.

(** [GET /vcon/{thread_id}]: a read; the table is returned as it was. *)
Definition get_vcon_by_thread_id (thread_id : string) (db : database)
    : database * (HTTPException + Vcon.t) :=
  match query_first thread_id db with
  | None =>
      (db, inl {| status_code := 404; detail := "Conversation not found" |})
  | Some (_, conversation) => (db, inr (Conversation.vcon conversation))
  end.

(** The stored record of a thread, and a run of POST requests. *)
Definition stored (thread_id : string) (db : database) : option Vcon.t :=
  (Conversation.vcon ∘ snd) <$> query_first thread_id db.

Definition posts (now : datetime.t) (db : database)
    (reqs : list EmailThreadRequest.t) : database :=
  foldl (λ db req, fst (generate_email_vcon req now db)) db reqs.

(** ** Notions the properties are stated with *)

(** The entry the builder makes of an incoming entry, for [n_parties]
    parties in the request. *)
Definition built_dialog (n_parties : nat) (dlg : DialogIn.t) : Dialog.t :=
  {| Dialog.type := "text";
     Dialog.start := dlg_start dlg;
     Dialog.parties := seq 0 n_parties;
     Dialog.originator := DialogIn.originator_index dlg;
     Dialog.mimetype := "text/plain";
     Dialog.body := DialogIn.body_snippet dlg;
     Dialog.metadata := None;
     Dialog.meta := None |}.

(** The table stays sound while the loop runs: every key in it is the key
    of the message at its index. *)
Definition table_sound (bodies : gmap (string * string) nat)
    (ds : list Dialog.t) : Prop :=
  ∀ k j, bodies !! k = Some j → ∃ d, ds !! j = Some d ∧ dialog_key d = k.

(** An incoming entry is matched when its key is the key of a message
    that was stored before the request. *)
Definition matched (ds : list Dialog.t) (dlg : DialogIn.t) : Prop :=
  dlg_tuple dlg ∈ dialog_key <$> ds.

#[global] Instance matched_dec ds dlg : Decision (matched ds dlg).
Proof. unfold matched. apply _. Defined.

(** The order in which distinct values are first met in a list. *)
Definition first_seen (l : list string) : list string :=
  foldl (λ (acc : list string) x,
           if bool_decide (x ∈ acc) then acc else acc ++ [x])
        [] l.

(** The emails of a record, and the participant merge on emails. *)
Definition party_emails (v : Vcon.t) : list string :=
  Party.email <$> Vcon.parties v.

Definition merge_emails (existing incoming : list string) : list string :=
  existing ++ filter (λ e, e ∉ existing) incoming.

(** ** The scenario of the specification, and two further requests *)

Definition t0 : datetime.t := datetime.mk 2024 1 1 0 0 0 0 None.

Definition post1 : EmailThreadRequest.t :=
  EmailThreadRequest.mk "t1" ["a@x.com"; "b@x.com"] [DialogIn.mk 0 "hi" t0].

Definition post2 : EmailThreadRequest.t :=
  EmailThreadRequest.mk "t1" ["b@x.com"; "c@x.com"] [DialogIn.mk 0 "hi" t0].

Definition post3 (parties : list string) (body : string)
    : EmailThreadRequest.t :=
  EmailThreadRequest.mk "t1" parties [DialogIn.mk 0 body t0].

(** A request that names one participant twice. *)
Definition post_twice : EmailThreadRequest.t :=
  EmailThreadRequest.mk "t1" ["a@x.com"; "a@x.com"] [].

Definition post_new_twice : EmailThreadRequest.t :=
  EmailThreadRequest.mk "t1" ["c@x.com"; "c@x.com"] [].

(** A timestamp five hours east of UTC: 2024-01-01T05:00:00+05:00, the
    instant 2024-01-01T00:00:00 UTC. *)
Definition t_east : datetime.t := datetime.mk 2024 1 1 5 0 0 0 (Some 18000%Z).

Definition post_east : EmailThreadRequest.t :=
  EmailThreadRequest.mk "t1" ["a@x.com"] [DialogIn.mk 0 "hi" t_east].

(** ** Runs of requests, invariants of the table, and the claim's own key *)

(** A run of POSTs, each at its own clock reading. *)
Definition posts_at (db : database)
    (run : list (datetime.t * EmailThreadRequest.t)) : database :=
  foldl (λ db nr, fst (generate_email_vcon (snd nr) (fst nr) db)) db run.

(** The [threadId] column. *)
Definition thread_ids (db : database) : list string :=
  Conversation.threadId <$> db.

(** The record of a row carries the row's thread id. *)
Definition thread_id_embedded (c : Conversation.t) : Prop :=
  Vcon.thread_id (Conversation.vcon c) = Some (Conversation.threadId c).

(** Every index in the [parties] of a message is an index of the record's
    party list. *)
Definition indices_valid (v : Vcon.t) : Prop :=
  Forall (λ d, Forall (λ i, i < length (Vcon.parties v)) (Dialog.parties d))
         (Vcon.dialog v).

(** [dt.replace(tzinfo=None)]: the wall-clock fields alone. *)
Definition wall_clock (dt : datetime.t) : datetime.t :=
  {| datetime.year := datetime.year dt; datetime.month := datetime.month dt;
     datetime.day := datetime.day dt; datetime.hour := datetime.hour dt;
     datetime.minute := datetime.minute dt;
     datetime.second := datetime.second dt;
     datetime.microsecond := datetime.microsecond dt;
     datetime.tzinfo := None |}.

(** A timestamp that [datetime.datetime] can hold. *)
Definition datetime_valid (dt : datetime.t) : Prop :=
  (1 ≤ Z.of_nat (datetime.year dt) ≤ 9999)%Z
  ∧ (1 ≤ Z.of_nat (datetime.month dt) ≤ 12)%Z
  ∧ (1 ≤ Z.of_nat (datetime.day dt)
     ≤ datetime.days_in_month (Z.of_nat (datetime.year dt))
         (datetime.month dt))%Z
  ∧ (Z.of_nat (datetime.hour dt) < 24)%Z
  ∧ (Z.of_nat (datetime.minute dt) < 60)%Z
  ∧ (Z.of_nat (datetime.second dt) < 60)%Z
  ∧ (Z.of_nat (datetime.microsecond dt) < 1000000)%Z.

(** In the words of the claim, not of the code: [s] is the timestamp [dt]
    normalised to UTC and serialised, the ISO form of a timestamp at
    offset zero that denotes the instant of [dt]. *)
Definition utc_normalised_start (dt : datetime.t) (s : string) : Prop :=
  ∃ u,
    datetime_valid u
    ∧ datetime.tzinfo u = Some datetime.utc
    ∧ datetime.instant u = datetime.instant dt
    ∧ datetime.isoformat u = s.

(** [@app.get("/vcon/{thread_id}")]: the path parameter is one non-empty
    path segment, so these are the thread ids a GET can carry. *)
Definition route_carries (thread_id : string) : Prop :=
  thread_id ≠ "" ∧ ∀ a b, thread_id ≠ a +:+ "/" +:+ b.

(** A timestamp five hours west of UTC: 2024-01-01T00:00:00-05:00, the
    instant 2024-01-01T05:00:00 UTC. *)
Definition t_west : datetime.t :=
  datetime.mk 2024 1 1 0 0 0 0 (Some (-18000)%Z).

Definition post_west : EmailThreadRequest.t :=
  EmailThreadRequest.mk "t1" ["a@x.com"] [DialogIn.mk 0 "hi" t_west].

(** ** Timestamps, evaluated *)

Example isoformat_naive :
  datetime.isoformat (datetime.mk 2024 1 1 0 0 0 0 None) = "2024-01-01T00:00:00".
Proof. vm_compute. reflexivity. Qed.

Example isoformat_offset :
  datetime.isoformat (datetime.mk 2024 12 31 23 59 7 250 (Some (-19800)%Z))
  = "2024-12-31T23:59:07.000250-05:30".
Proof. vm_compute. reflexivity. Qed.

Example toordinal_2024 :
  datetime.toordinal (datetime.mk 2024 1 1 0 0 0 0 None) = 738886%Z.
Proof. vm_compute. reflexivity. Qed.

(** Relabelling as UTC moves the instant by the offset that was attached:
    the stored start denotes the supplied instant exactly when the
    timestamp is naive or carries the offset zero. *)
Lemma instant_replace_tzinfo_utc (dt : datetime.t) :
  datetime.instant (datetime.replace_tzinfo dt datetime.utc)
  = (datetime.instant dt + datetime.utcoffset dt * 1000000)%Z.
Proof.
  unfold datetime.instant, datetime.toordinal, datetime.utcoffset.
  simpl. unfold datetime.utc. lia.
Qed.

Lemma instant_replace_tzinfo_utc_same (dt : datetime.t) :
  datetime.instant (datetime.replace_tzinfo dt datetime.utc)
  = datetime.instant dt
  ↔ datetime.utcoffset dt = 0%Z.
Proof. rewrite instant_replace_tzinfo_utc. lia. Qed.

(** ** Loops that append *)

Section append_loops.
Context {A B : Type}.

Lemma foldl_snoc_fmap (f : B → A) (acc : list A) (l : list B) :
  foldl (λ acc x, acc ++ [f x]) acc l = acc ++ (f <$> l).
Proof.
  revert acc. induction l as [|x l IH]; intros acc; simpl.
  - by rewrite app_nil_r.
  - rewrite IH. by rewrite <- app_assoc.
Qed.

Lemma foldl_snoc_filter (P : B → Prop) `{!∀ x, Decision (P x)}
    (f : B → A) (acc : list A) (l : list B) :
  foldl (λ acc x, if bool_decide (P x) then acc else acc ++ [f x]) acc l
  = acc ++ (f <$> filter (λ x, ¬ P x) l).
Proof.
  revert acc. induction l as [|x l IH]; intros acc; simpl.
  - by rewrite app_nil_r.
  - rewrite IH, filter_cons. case_bool_decide; case_decide; try done.
    simpl. by rewrite <- app_assoc.
Qed.
End append_loops.

(** ** The builder, in closed form *)

Lemma add_party_loop (v : Vcon.t) (emails : list string) :
  foldl (λ v email, Vcon.add_party v (Party.mk email)) v emails
  = {| Vcon.thread_id := Vcon.thread_id v;
       Vcon.parties := Vcon.parties v ++ (Party.mk <$> emails);
       Vcon.dialog := Vcon.dialog v |}.
Proof.
  revert v. induction emails as [|e emails IH]; intros [tid ps ds]; simpl.
  - by rewrite app_nil_r.
  - rewrite IH. simpl. by rewrite <- app_assoc.
Qed.

Lemma add_dialog_loop (f : DialogIn.t → Dialog.t) (v : Vcon.t)
    (dlgs : list DialogIn.t) :
  foldl (λ v dlg, Vcon.add_dialog v (f dlg)) v dlgs
  = {| Vcon.thread_id := Vcon.thread_id v;
       Vcon.parties := Vcon.parties v;
       Vcon.dialog := Vcon.dialog v ++ (f <$> dlgs) |}.
Proof.
  revert v. induction dlgs as [|d dlgs IH]; intros [tid ps ds]; simpl.
  - by rewrite app_nil_r.
  - rewrite IH. simpl. by rewrite <- app_assoc.
Qed.

Lemma create_email_thread_vcon_eq (req : EmailThreadRequest.t) :
  create_email_thread_vcon req
  = {| Vcon.thread_id := Some (EmailThreadRequest.thread_id req);
       Vcon.parties := Party.mk <$> EmailThreadRequest.parties req;
       Vcon.dialog :=
         built_dialog (length (EmailThreadRequest.parties req))
           <$> EmailThreadRequest.dialogs req |}.
Proof.
  unfold create_email_thread_vcon.
  rewrite add_party_loop.
  rewrite (add_dialog_loop
             (built_dialog (length (EmailThreadRequest.parties req)))).
  reflexivity.
Qed.

(** The builder stores, entry by entry, the relabelled start and the
    supplied originator index. *)
Lemma create_start_originator (req : EmailThreadRequest.t) :
  (λ d, (Dialog.start d, Dialog.originator d))
    <$> Vcon.dialog (create_email_thread_vcon req)
  = (λ dlg, (dlg_start dlg, DialogIn.originator_index dlg))
      <$> EmailThreadRequest.dialogs req.
Proof.
  rewrite create_email_thread_vcon_eq. simpl.
  rewrite <- list_fmap_compose. reflexivity.
Qed.

(** ** The participant merge, in closed form *)

Lemma new_parties_eq (existing incoming : list string) :
  new_parties existing incoming
  = Party.mk <$> filter (λ e, e ∉ existing) incoming.
Proof. unfold new_parties. by rewrite foldl_snoc_filter. Qed.

Lemma merge_vcon_parties (v : Vcon.t) (req : EmailThreadRequest.t) :
  Vcon.parties (merge_vcon v req)
  = Vcon.parties v
    ++ (Party.mk <$> filter (λ e, e ∉ Party.email <$> Vcon.parties v)
                       (EmailThreadRequest.parties req)).
Proof. unfold merge_vcon, merge_dialogs, merge_parties. simpl. by rewrite new_parties_eq. Qed.

(** ** The lookup table of the message merge *)

Lemma existing_bodies_from_None (idx : nat) (ds : list Dialog.t)
    (acc : gmap (string * string) nat) (k : string * string) :
  existing_bodies_from idx ds acc !! k = None
  ↔ acc !! k = None ∧ k ∉ dialog_key <$> ds.
Proof.
  revert idx acc. induction ds as [|d ds IH]; intros idx acc; simpl.
  - split; [intros H; split; [done | by intros ?%elem_of_nil] | by intros [? _]].
  - rewrite IH, lookup_insert_None, not_elem_of_cons.
    split; [intros [[? ?] ?] | intros [? [? ?]]]; split_and!; auto.
Qed.

Lemma existing_bodies_from_Some (idx : nat) (ds : list Dialog.t)
    (acc : gmap (string * string) nat) (k : string * string) (j : nat) :
  existing_bodies_from idx ds acc !! k = Some j →
  (acc !! k = Some j ∧ k ∉ dialog_key <$> ds)
  ∨ (∃ j' d, j = idx + j' ∧ ds !! j' = Some d ∧ dialog_key d = k
             ∧ ∀ i d', j' < i → ds !! i = Some d' → dialog_key d' ≠ k).
Proof.
  revert idx acc. induction ds as [|d ds IH]; intros idx acc; simpl.
  - intros H. left. split; [done | by intros ?%elem_of_nil].
  - intros [[Hacc Hnin] | (j' & d' & -> & Hj' & Hk & Hlast)]%IH.
    + destruct (decide (dialog_key d = k)) as [Heq | Hne].
      * subst k. rewrite lookup_insert_eq in Hacc. injection Hacc as <-.
        right. exists 0, d. split_and!; [lia | done | done |].
        intros [|i] d' Hi Hd'; [lia |]. simpl in Hd'.
        intros Hkd. apply Hnin. rewrite <- Hkd.
        apply list_elem_of_fmap. exists d'. split; [done |].
        by eapply list_elem_of_lookup_2.
      * rewrite lookup_insert_ne in Hacc by done.
        left. split; [done |]. rewrite not_elem_of_cons. by split.
    + right. exists (S j'), d'. split_and!; [lia | done | done |].
      intros [|i] d'' Hi Hd''; [lia |]. simpl in Hd''.
      apply (Hlast i d''); [lia | done].
Qed.

(** A key of the table is the key of the message at the index it maps
    to, and no later message has that key. *)
Lemma existing_bodies_Some (ds : list Dialog.t) (k : string * string) (j : nat) :
  existing_bodies ds !! k = Some j →
  ∃ d, ds !! j = Some d ∧ dialog_key d = k
       ∧ ∀ i d', j < i → ds !! i = Some d' → dialog_key d' ≠ k.
Proof.
  intros [[Hacc _] | (j' & d & -> & ? & ? & ?)]%existing_bodies_from_Some.
  - by rewrite lookup_empty in Hacc.
  - by exists d.
Qed.

Lemma existing_bodies_None (ds : list Dialog.t) (k : string * string) :
  existing_bodies ds !! k = None ↔ k ∉ dialog_key <$> ds.
Proof.
  unfold existing_bodies. rewrite existing_bodies_from_None, lookup_empty.
  split; [by intros [_ ?] | by intros ?].
Qed.

Lemma existing_bodies_is_Some (ds : list Dialog.t) (k : string * string) :
  is_Some (existing_bodies ds !! k) ↔ k ∈ dialog_key <$> ds.
Proof.
  rewrite <- not_eq_None_Some, existing_bodies_None.
  split; [apply dec_stable | by intros ? ?].
Qed.

(** The indices of the table are indices of the list: the assignment
    [existing_dialogs[idx][...] = ...] is always in range. *)
Lemma existing_bodies_lt (ds : list Dialog.t) (k : string * string) (j : nat) :
  existing_bodies ds !! k = Some j → j < length ds.
Proof.
  intros (d & Hd & _)%existing_bodies_Some. by eapply lookup_lt_Some.
Qed.

(** ** The message merge *)

(** Assigning to a message the body and start it already has changes
    nothing. *)
Lemma overwrite_same_key (d : Dialog.t) (dlg : DialogIn.t) :
  dialog_key d = dlg_tuple dlg →
  Dialog.set_start (dlg_start dlg)
    (Dialog.set_body (DialogIn.body_snippet dlg) d) = d.
Proof.
  destruct d. unfold dialog_key, dlg_tuple. simpl.
  intros [= -> ->]. reflexivity.
Qed.

(** One round of the loop: the matched case assigns two members of the
    message at the index of the table, the unmatched case appends. *)
Lemma merge_dialog_matched n bodies ds dlg idx d :
  bodies !! dlg_tuple dlg = Some idx →
  ds !! idx = Some d →
  merge_dialog n bodies ds dlg
  = <[idx := Dialog.set_start (dlg_start dlg)
               (Dialog.set_body (DialogIn.body_snippet dlg) d)]> ds.
Proof.
  intros Hb Hd. unfold merge_dialog. rewrite Hb.
  apply list_eq. intros j. destruct (decide (idx = j)) as [<- | Hne].
  - rewrite list_lookup_alter_eq, Hd.
    rewrite list_lookup_insert_eq by (by eapply lookup_lt_Some). done.
  - by rewrite list_lookup_alter_ne, list_lookup_insert_ne.
Qed.

Lemma merge_dialog_unmatched n bodies ds dlg :
  bodies !! dlg_tuple dlg = None →
  merge_dialog n bodies ds dlg = ds ++ [new_dialog n dlg].
Proof. intros Hb. unfold merge_dialog. by rewrite Hb. Qed.

(** One round of the loop leaves every member other than [body] and
    [start] of every stored message as it was, and touches no message but
    the one at the index the table gives; this holds for any table. *)
Lemma merge_dialog_frame n bodies ds dlg j d :
  ds !! j = Some d →
  ∃ d', merge_dialog n bodies ds dlg !! j = Some d'
        ∧ Dialog.type d' = Dialog.type d
        ∧ Dialog.parties d' = Dialog.parties d
        ∧ Dialog.originator d' = Dialog.originator d
        ∧ Dialog.mimetype d' = Dialog.mimetype d
        ∧ Dialog.metadata d' = Dialog.metadata d
        ∧ Dialog.meta d' = Dialog.meta d
        ∧ (bodies !! dlg_tuple dlg ≠ Some j → d' = d).
Proof.
  intros Hd. unfold merge_dialog.
  destruct (bodies !! dlg_tuple dlg) as [idx|] eqn:Hb.
  - destruct (decide (idx = j)) as [-> | Hne].
    + eexists. rewrite list_lookup_alter_eq, Hd. simpl.
      split_and!; try reflexivity. by intros [].
    + exists d. rewrite list_lookup_alter_ne by done. by split_and!.
  - exists d. split_and!; try done. by apply lookup_app_l_Some.
Qed.

Lemma table_sound_existing_bodies (ds : list Dialog.t) :
  table_sound (existing_bodies ds) ds.
Proof.
  intros k j (d & Hd & Hk & _)%existing_bodies_Some. by exists d.
Qed.

Lemma table_sound_app bodies ds ds' :
  table_sound bodies ds → table_sound bodies (ds ++ ds').
Proof.
  intros Hs k j (d & Hd & Hk)%Hs. exists d. split; [|done].
  by apply lookup_app_l_Some.
Qed.

Lemma merge_dialog_sound_matched n bodies ds dlg idx :
  table_sound bodies ds →
  bodies !! dlg_tuple dlg = Some idx →
  merge_dialog n bodies ds dlg = ds.
Proof.
  intros Hs Hb. destruct (Hs _ _ Hb) as (d & Hd & Hk).
  rewrite (merge_dialog_matched _ _ _ _ _ d Hb Hd).
  rewrite overwrite_same_key by done. by apply list_insert_id.
Qed.

Lemma merge_dialog_loop n bodies ds dlgs :
  table_sound bodies ds →
  foldl (merge_dialog n bodies) ds dlgs
  = ds ++ (new_dialog n
             <$> filter (λ dlg, bodies !! dlg_tuple dlg = None) dlgs).
Proof.
  revert ds. induction dlgs as [|dlg dlgs IH]; intros ds Hs; simpl.
  - by rewrite app_nil_r.
  - rewrite filter_cons. destruct (bodies !! dlg_tuple dlg) as [idx|] eqn:Hb.
    + rewrite (merge_dialog_sound_matched _ _ _ _ idx) by done.
      rewrite decide_False by done. by apply IH.
    + rewrite merge_dialog_unmatched by done.
      rewrite decide_True by done.
      rewrite IH by (by apply table_sound_app).
      simpl. by rewrite <- app_assoc.
Qed.

Lemma merge_vcon_dialog (v : Vcon.t) (req : EmailThreadRequest.t) :
  Vcon.dialog (merge_vcon v req)
  = Vcon.dialog v
    ++ (new_dialog (length (Vcon.parties (merge_vcon v req)))
          <$> filter (λ dlg, ¬ matched (Vcon.dialog v) dlg)
                (EmailThreadRequest.dialogs req)).
Proof.
  unfold merge_vcon, merge_dialogs. simpl.
  rewrite merge_dialog_loop by apply table_sound_existing_bodies.
  f_equal. f_equal. apply list_filter_iff. intros dlg.
  apply existing_bodies_None.
Qed.

Lemma merge_vcon_thread_id (v : Vcon.t) (req : EmailThreadRequest.t) :
  Vcon.thread_id (merge_vcon v req) = Vcon.thread_id v.
Proof. reflexivity. Qed.

(** ** The handlers on a thread that has, or has not, a row *)

Lemma query_first_threadId tid (db : database) i c :
  query_first tid db = Some (i, c) → Conversation.threadId c = tid.
Proof. by intros (_ & ? & _)%list_find_Some. Qed.

Lemma stored_Some tid (db : database) v :
  stored tid db = Some v ↔
  ∃ i c, query_first tid db = Some (i, c) ∧ Conversation.vcon c = v.
Proof.
  unfold stored. rewrite fmap_Some. split.
  - intros ([i c] & ? & ->). by exists i, c.
  - intros (i & c & ? & <-). by exists (i, c).
Qed.

Lemma stored_None tid (db : database) :
  stored tid db = None ↔ query_first tid db = None.
Proof. unfold stored. by rewrite fmap_None. Qed.

Lemma generate_existing req now (db : database) v :
  stored (EmailThreadRequest.thread_id req) db = Some v →
  snd (generate_email_vcon req now db) = merge_vcon v req
  ∧ stored (EmailThreadRequest.thread_id req)
      (fst (generate_email_vcon req now db)) = Some (merge_vcon v req).
Proof.
  intros (i & c & Hq & <-)%stored_Some.
  unfold generate_email_vcon. rewrite Hq. simpl. split; [done |].
  pose proof Hq as (Hi & Ht & Hleast)%list_find_Some.
  unfold stored, query_first.
  set (c' := {| Conversation.vcon := merge_vcon (Conversation.vcon c) req;
                Conversation.threadId := Conversation.threadId c;
                Conversation.createdAt := Conversation.createdAt c;
                Conversation.updatedAt := now |}).
  rewrite (proj2 (list_find_Some _ _ i c')); [reflexivity |].
  split_and!.
  - apply list_lookup_insert_eq. by eapply lookup_lt_Some.
  - done.
  - intros j y Hj Hlt. rewrite list_lookup_insert_ne in Hj by lia. eauto.
Qed.

Lemma generate_new req now (db : database) :
  stored (EmailThreadRequest.thread_id req) db = None →
  snd (generate_email_vcon req now db) = create_email_thread_vcon req
  ∧ stored (EmailThreadRequest.thread_id req)
      (fst (generate_email_vcon req now db))
    = Some (create_email_thread_vcon req).
Proof.
  intros Hq%stored_None. unfold generate_email_vcon. rewrite Hq. simpl.
  split; [done |]. unfold stored, query_first.
  unfold query_first in Hq. rewrite list_find_app_r by done. simpl.
  rewrite decide_True by done. done.
Qed.

(** A run of POSTs on one thread that had no record: the first creates,
    the others merge. *)
Lemma posts_same_thread tid now (db : database) r rs :
  stored tid db = None →
  Forall (λ q, EmailThreadRequest.thread_id q = tid) (r :: rs) →
  stored tid (posts now db (r :: rs))
  = Some (foldl merge_vcon (create_email_thread_vcon r) rs).
Proof.
  intros Hs [Hr Hrs]%Forall_cons. simpl. subst tid.
  destruct (generate_new r now db Hs) as [_ Hst].
  revert Hst Hrs.
  generalize (create_email_thread_vcon r).
  generalize (fst (generate_email_vcon r now db)).
  induction rs as [|q rs IH]; intros db' v Hst Hrs; simpl; [done |].
  apply Forall_cons in Hrs as [Hq Hrs].
  apply IH; [|done]. rewrite <- Hq in *.
  by destruct (generate_existing q now db' v Hst).
Qed.

(** ** The party list over a run of requests *)

Lemma party_emails_mk (l : list string) : Party.email <$> (Party.mk <$> l) = l.
Proof. rewrite <- list_fmap_compose. apply list_fmap_id. Qed.

Lemma party_emails_create (req : EmailThreadRequest.t) :
  party_emails (create_email_thread_vcon req) = EmailThreadRequest.parties req.
Proof.
  unfold party_emails. rewrite create_email_thread_vcon_eq. simpl.
  apply party_emails_mk.
Qed.

Lemma party_emails_merge (v : Vcon.t) (req : EmailThreadRequest.t) :
  party_emails (merge_vcon v req)
  = merge_emails (party_emails v) (EmailThreadRequest.parties req).
Proof.
  unfold party_emails, merge_emails.
  by rewrite merge_vcon_parties, fmap_app, party_emails_mk.
Qed.

Lemma party_emails_foldl (v : Vcon.t) (rs : list EmailThreadRequest.t) :
  party_emails (foldl merge_vcon v rs)
  = foldl merge_emails (party_emails v) (EmailThreadRequest.parties <$> rs).
Proof.
  revert v. induction rs as [|q rs IH]; intros v; simpl; [done |].
  by rewrite IH, party_emails_merge.
Qed.

(** On an incoming list without repeats the participant merge is the
    first-met scan continued, and it keeps the emails distinct. *)
Lemma filter_not_elem_of_snoc (acc ps : list string) (x : string) :
  x ∉ ps →
  filter (λ e, e ∉ acc ++ [x]) ps = filter (λ e, e ∉ acc) ps.
Proof.
  induction ps as [|y ps IH]; [done |].
  intros [Hxy Hx]%not_elem_of_cons. rewrite !filter_cons, IH by done.
  destruct (decide (y ∉ acc)) as [Hy | Hy].
  - rewrite decide_True; [done |].
    rewrite not_elem_of_app, list_elem_of_singleton. split; congruence.
  - rewrite decide_False; [done |].
    rewrite not_elem_of_app. by intros [? _].
Qed.

Lemma first_seen_step_NoDup (acc ps : list string) :
  NoDup ps →
  foldl (λ (acc : list string) x,
           if bool_decide (x ∈ acc) then acc else acc ++ [x]) acc ps
  = merge_emails acc ps.
Proof.
  unfold merge_emails. revert acc.
  induction ps as [|x ps IH]; intros acc Hnd; simpl.
  - by rewrite app_nil_r.
  - apply NoDup_cons in Hnd as [Hx Hnd]. rewrite filter_cons.
    case_bool_decide as Hin.
    + rewrite decide_False by (by intros ?). by apply IH.
    + rewrite decide_True by done. rewrite IH by done.
      rewrite <- app_assoc. simpl.
      by rewrite filter_not_elem_of_snoc.
Qed.

Lemma merge_emails_NoDup (acc ps : list string) :
  NoDup acc → NoDup ps → NoDup (merge_emails acc ps).
Proof.
  intros Ha Hp. unfold merge_emails. apply NoDup_app. split_and!.
  - done.
  - by intros x Hx [Hnx _]%list_elem_of_filter.
  - by apply NoDup_filter.
Qed.

Lemma merge_emails_nil (ps : list string) : merge_emails [] ps = ps.
Proof.
  unfold merge_emails. simpl. induction ps as [|x ps IH]; [done |].
  rewrite filter_cons, decide_True by (by intros ?%elem_of_nil).
  by rewrite IH.
Qed.

Lemma first_seen_run (es : list string) (pss : list (list string)) :
  NoDup es →
  Forall NoDup pss →
  foldl (λ (acc : list string) x,
           if bool_decide (x ∈ acc) then acc else acc ++ [x]) es (concat pss)
  = foldl merge_emails es pss
  ∧ NoDup (foldl merge_emails es pss).
Proof.
  revert es. induction pss as [|ps pss IH]; intros es Hes Hpss; simpl.
  - done.
  - apply Forall_cons in Hpss as [Hps Hpss].
    rewrite foldl_app, (first_seen_step_NoDup es ps) by done.
    apply IH; [by apply merge_emails_NoDup | done].
Qed.

(** X17.  Without a repeat inside any one request, a run of POSTs on a
    thread that had no record leaves the party list duplicate-free and in
    the order in which the distinct emails were first met. *)
Lemma party_order_without_repeats tid now (db : database) r rs :
  stored tid db = None →
  Forall (λ q, EmailThreadRequest.thread_id q = tid) (r :: rs) →
  Forall (λ q, NoDup (EmailThreadRequest.parties q)) (r :: rs) →
  ∃ v,
    stored tid (posts now db (r :: rs)) = Some v
    ∧ party_emails v
      = first_seen (concat (EmailThreadRequest.parties <$> r :: rs))
    ∧ NoDup (party_emails v).
Proof.
  intros Hs Ht [Hr Hrs]%Forall_cons.
  eexists. split; [by apply posts_same_thread |].
  rewrite party_emails_foldl, party_emails_create.
  unfold first_seen. simpl. rewrite foldl_app.
  rewrite (first_seen_step_NoDup [] (EmailThreadRequest.parties r)) by done.
  rewrite merge_emails_nil.
  destruct (first_seen_run (EmailThreadRequest.parties r)
              (EmailThreadRequest.parties <$> rs)) as [Heq Hnd];
    [done | by apply Forall_fmap |].
  split; [symmetry; exact Heq | exact Hnd].
Qed.

(** Whatever the requests repeat, the order in which distinct emails first
    occur in the party list is the order in which they were first met. *)
Lemma first_seen_from_subseteq (acc l : list string) :
  acc ⊆ foldl (λ (acc : list string) x,
                 if bool_decide (x ∈ acc) then acc else acc ++ [x]) acc l
  ∧ l ⊆ foldl (λ (acc : list string) x,
                 if bool_decide (x ∈ acc) then acc else acc ++ [x]) acc l.
Proof.
  revert acc. induction l as [|x l IH]; intros acc; simpl.
  - split; [done | apply list_subseteq_nil].
  - destruct (IH (if bool_decide (x ∈ acc) then acc else acc ++ [x]))
      as [Hacc Hl].
    case_bool_decide as Hx.
    + split; [done |]. intros y [-> | Hy]%elem_of_cons; auto.
    + split.
      * intros y Hy. apply Hacc, elem_of_app. by left.
      * intros y [-> | Hy]%elem_of_cons; [|auto].
        apply Hacc, elem_of_app. right. by apply list_elem_of_singleton.
Qed.

Lemma first_seen_from_filter (es acc ps : list string) :
  es ⊆ acc →
  foldl (λ (acc : list string) x,
           if bool_decide (x ∈ acc) then acc else acc ++ [x])
        acc (filter (λ e, e ∉ es) ps)
  = foldl (λ (acc : list string) x,
             if bool_decide (x ∈ acc) then acc else acc ++ [x]) acc ps.
Proof.
  revert acc. induction ps as [|x ps IH]; intros acc Hsub; [done |].
  rewrite filter_cons. destruct (decide (x ∉ es)) as [Hx | Hx]; simpl.
  - apply IH. case_bool_decide; [done |].
    intros y Hy. apply elem_of_app. left. by apply Hsub.
  - apply dec_stable in Hx. rewrite bool_decide_eq_true_2 by (by apply Hsub).
    by apply IH.
Qed.

Lemma first_seen_merge_emails (es ps : list string) :
  first_seen (merge_emails es ps)
  = foldl (λ (acc : list string) x,
             if bool_decide (x ∈ acc) then acc else acc ++ [x])
          (first_seen es) ps.
Proof.
  unfold first_seen, merge_emails. rewrite foldl_app.
  apply first_seen_from_filter, first_seen_from_subseteq.
Qed.

Lemma first_seen_foldl_merge (es : list string) (pss : list (list string)) :
  first_seen (foldl merge_emails es pss) = first_seen (es ++ concat pss).
Proof.
  revert es. induction pss as [|ps pss IH]; intros es; simpl.
  - by rewrite app_nil_r.
  - rewrite IH. unfold first_seen at 1 2. rewrite !foldl_app.
    fold (first_seen (merge_emails es ps)). fold (first_seen es).
    by rewrite first_seen_merge_emails.
Qed.

(** X18.  Over any run of POSTs on a thread that had no record, repeats
    or not, the distinct emails first occur in the party list in the order
    in which they were first met in the requests. *)
Lemma party_first_seen_order tid now (db : database) r rs :
  stored tid db = None →
  Forall (λ q, EmailThreadRequest.thread_id q = tid) (r :: rs) →
  ∃ v,
    stored tid (posts now db (r :: rs)) = Some v
    ∧ first_seen (party_emails v)
      = first_seen (concat (EmailThreadRequest.parties <$> r :: rs)).
Proof.
  intros Hs Ht. eexists. split; [by apply posts_same_thread |].
  rewrite party_emails_foldl, party_emails_create.
  apply first_seen_foldl_merge.
Qed.

(** ** The claims *)

(** C1.  The message key of the merge is not the claim's key.  The claim
    keys an incoming entry by its snippet and its start normalised to UTC;
    the code keys it by the start with the zone relabelled (see C4).  On
    the record stored by the scenario's first POST, whose one message has
    the key ("hi", "2024-01-01T00:00:00+00:00"): the entry "hi" at
    2024-01-01T05:00:00+05:00 has that very key once normalised, yet the
    code appends a second message for it; and the entry "hi" at
    2024-01-01T00:00:00-05:00 normalises to a start that no stored message
    has, yet the code matches it and appends nothing. *)
Theorem C1_key_is_relabelled_start :
  dialog_key <$> Vcon.dialog (create_email_thread_vcon post1)
  = [("hi", "2024-01-01T00:00:00+00:00")]
  ∧ stored "t1" (posts t0 [] [post1]) = Some (create_email_thread_vcon post1)
  ∧ utc_normalised_start t_east "2024-01-01T00:00:00+00:00"
  ∧ dialog_key
      <$> Vcon.dialog
            (snd (generate_email_vcon post_east t0 (posts t0 [] [post1])))
    = [("hi", "2024-01-01T00:00:00+00:00");
       ("hi", "2024-01-01T05:00:00+00:00")]
  ∧ utc_normalised_start t_west "2024-01-01T05:00:00+00:00"
  ∧ (("hi", "2024-01-01T05:00:00+00:00")
      ∉ dialog_key <$> Vcon.dialog (create_email_thread_vcon post1))
  ∧ Vcon.dialog
      (snd (generate_email_vcon post_west t0 (posts t0 [] [post1])))
    = Vcon.dialog (create_email_thread_vcon post1).
Proof.
  split_and!.
  - vm_compute. reflexivity.
  - vm_compute. reflexivity.
  - exists (datetime.mk 2024 1 1 0 0 0 0 (Some datetime.utc)).
    split_and!; [| reflexivity | vm_compute; reflexivity
                 | vm_compute; reflexivity].
    unfold datetime_valid. simpl. split_and!; lia.
  - vm_compute. reflexivity.
  - exists (datetime.mk 2024 1 1 5 0 0 0 (Some datetime.utc)).
    split_and!; [| reflexivity | vm_compute; reflexivity
                 | vm_compute; reflexivity].
    unfold datetime_valid. simpl. split_and!; lia.
  - assert (dialog_key <$> Vcon.dialog (create_email_thread_vcon post1)
            = [("hi", "2024-01-01T00:00:00+00:00")]) as ->
      by (vm_compute; reflexivity).
    intros [=]%list_elem_of_singleton.
  - vm_compute. reflexivity.
Qed.

(** C2.  The scenario of the specification, from the empty table: the
    first POST for ["t1"] stores 2 parties and 1 dialog entry whose start
    is ["2024-01-01T00:00:00+00:00"]; the second POST, with parties [b, c]
    and the same dialog entry, gives the parties [a, b, c] and still 1
    dialog entry; a third POST whose dialog entry differs from it only in
    [body_snippet] (whatever its parties list is) gives 2 dialog
    entries. *)
Theorem C2_scenario (parties3 : list string) (body3 : string) :
  body3 ≠ "hi" →
  let r1 := generate_email_vcon post1 t0 [] in
  let r2 := generate_email_vcon post2 t0 (fst r1) in
  let r3 := generate_email_vcon (post3 parties3 body3) t0 (fst r2) in
  stored "t1" (fst r1) = Some (snd r1)
  ∧ length (Vcon.parties (snd r1)) = 2
  ∧ Dialog.start <$> Vcon.dialog (snd r1) = ["2024-01-01T00:00:00+00:00"]
  ∧ stored "t1" (fst r2) = Some (snd r2)
  ∧ Party.email <$> Vcon.parties (snd r2) = ["a@x.com"; "b@x.com"; "c@x.com"]
  ∧ length (Vcon.dialog (snd r2)) = 1
  ∧ stored "t1" (fst r3) = Some (snd r3)
  ∧ length (Vcon.dialog (snd r3)) = 2.
Proof.
  intros Hbody r1 r2 r3.
  destruct (generate_new post1 t0 [] eq_refl) as [E1 S1]. fold r1 in E1, S1.
  destruct (generate_existing post2 t0 (fst r1) _ S1) as [E2 S2].
  fold r2 in E2, S2.
  destruct (generate_existing (post3 parties3 body3) t0 (fst r2) _ S2)
    as [E3 S3].
  fold r3 in E3, S3.
  rewrite E3, E2, E1. split_and!; try done.
  rewrite merge_vcon_dialog, length_app, length_fmap.
  change (EmailThreadRequest.dialogs (post3 parties3 body3))
    with [DialogIn.mk 0 body3 t0].
  rewrite filter_cons, decide_True; [reflexivity |].
  intros (d & Hk & Hd)%list_elem_of_fmap.
  assert (Vcon.dialog (merge_vcon (create_email_thread_vcon post1) post2)
          = [built_dialog 2 (DialogIn.mk 0 "hi" t0)]) as Hv2
    by (vm_compute; reflexivity).
  rewrite Hv2 in Hd. apply list_elem_of_singleton in Hd as ->.
  apply (f_equal fst) in Hk. simpl in Hk. done.
Qed.

Lemma C2_scenario_witness :
  length (Vcon.dialog
            (snd (generate_email_vcon (post3 ["b@x.com"; "c@x.com"] "hello") t0
                    (posts t0 [] [post1; post2])))) = 2.
Proof.
  pose proof (C2_scenario ["b@x.com"; "c@x.com"] "hello" ltac:(discriminate))
    as H.
  apply H.
Defined.

(** C3.  The party list can hold one email twice.  A first POST that
    names ["a@x.com"] twice stores two descriptors for it; a POST on an
    existing thread that names a new email twice appends it twice. *)
Theorem C3_duplicate_party_emails :
  Party.email <$> Vcon.parties (snd (generate_email_vcon post_twice t0 []))
  = ["a@x.com"; "a@x.com"]
  ∧ ¬ NoDup (Party.email
               <$> Vcon.parties (snd (generate_email_vcon post_twice t0 [])))
  ∧ Party.email
      <$> Vcon.parties
            (snd (generate_email_vcon post_new_twice t0 (posts t0 [] [post1])))
    = ["a@x.com"; "b@x.com"; "c@x.com"; "c@x.com"].
Proof.
  split_and!; [reflexivity | | reflexivity].
  change (¬ NoDup ["a@x.com"; "a@x.com"]).
  intros [Hnin _]%NoDup_cons. apply Hnin. by left.
Qed.

(** C4.  The start of a stored message keeps the wall-clock fields of
    [last_modified] and relabels them as UTC; an offset is not converted.
    For 2024-01-01T05:00:00+05:00 both the builder and the merger store
    ["2024-01-01T05:00:00+00:00"], five hours after the instant supplied,
    which in UTC is 2024-01-01T00:00:00+00:00.  The originator is the
    supplied index. *)
Theorem C4_offset_relabelled_not_converted :
  Dialog.start <$> Vcon.dialog (snd (generate_email_vcon post_east t0 []))
  = ["2024-01-01T05:00:00+00:00"]
  ∧ Dialog.start
      <$> drop 1 (Vcon.dialog
                    (snd (generate_email_vcon post_east t0
                            (posts t0 [] [post1]))))
    = ["2024-01-01T05:00:00+00:00"]
  ∧ datetime.instant (datetime.replace_tzinfo t_east datetime.utc)
    = (datetime.instant t_east + 5 * 3600 * 1000000)%Z
  ∧ datetime.instant (datetime.mk 2024 1 1 0 0 0 0 (Some datetime.utc))
    = datetime.instant t_east
  ∧ datetime.isoformat (datetime.mk 2024 1 1 0 0 0 0 (Some datetime.utc))
    = "2024-01-01T00:00:00+00:00"
  ∧ Dialog.originator
      <$> Vcon.dialog (snd (generate_email_vcon post_east t0 []))
    = [0%Z].
Proof. split_and!; vm_compute; reflexivity. Qed.

(** C5.  With an email repeated inside one request the party list is not
    the list of distinct emails in first-met order: after the single POST
    [post_twice] it is [a, a], while the distinct emails met are [a]. *)
Theorem C5_party_order_with_repeats :
  ∃ v,
    stored "t1" (posts t0 [] [post_twice]) = Some v
    ∧ Party.email <$> Vcon.parties v = ["a@x.com"; "a@x.com"]
    ∧ first_seen (concat (EmailThreadRequest.parties <$> [post_twice]))
      = ["a@x.com"]
    ∧ Party.email <$> Vcon.parties v
      ≠ first_seen (concat (EmailThreadRequest.parties <$> [post_twice])).
Proof. eexists. split_and!; [reflexivity.. | discriminate]. Qed.

(** C6.  The merge is non-destructive.  When a record [v] is stored for
    the request's thread, the POST stores (and answers with) a record [v']
    in which every party descriptor of [v] is at the index it had, every
    message index of [v] is still a message index, and the dialog list
    is no shorter. *)
Theorem C6_merge_non_destructive req now (db : database) v :
  stored (EmailThreadRequest.thread_id req) db = Some v →
  ∃ v',
    stored (EmailThreadRequest.thread_id req)
      (fst (generate_email_vcon req now db)) = Some v'
    ∧ snd (generate_email_vcon req now db) = v'
    ∧ (∀ i p, Vcon.parties v !! i = Some p → Vcon.parties v' !! i = Some p)
    ∧ (∀ i, is_Some (Vcon.dialog v !! i) → is_Some (Vcon.dialog v' !! i))
    ∧ (length (Vcon.dialog v) ≤ length (Vcon.dialog v'))%nat.
Proof.
  intros Hv. destruct (generate_existing req now db v Hv) as [Hr Hs].
  exists (merge_vcon v req). split_and!; [done | done | | |].
  - intros i p Hp. rewrite merge_vcon_parties. by apply lookup_app_l_Some.
  - intros i [d Hd]. exists d. rewrite merge_vcon_dialog.
    by apply lookup_app_l_Some.
  - rewrite merge_vcon_dialog, length_app. lia.
Qed.

Lemma C6_merge_non_destructive_witness :
  ∃ v',
    snd (generate_email_vcon post2 t0 (posts t0 [] [post1])) = v'
    ∧ Vcon.parties v' !! 0 = Some (Party.mk "a@x.com")
    ∧ (1 ≤ length (Vcon.dialog v'))%nat.
Proof.
  destruct (C6_merge_non_destructive post2 t0 (posts t0 [] [post1])
              (create_email_thread_vcon post1) eq_refl)
    as (v' & _ & Hr & Hp & _ & Hlen).
  exists v'. split_and!; [exact Hr | by apply Hp | exact Hlen].
Defined.

(** C7.  Every entry appended by a merge, that is every entry of the
    record after the POST at an index past the messages stored before,
    comes from an incoming entry with an unmatched key and has: [parties]
    the full index range [0, n) for [n] the size of the party list after
    this request's participant merge, [originator] the incoming
    [originator_index], [type] ["text"], [mimetype] ["text/plain"], and the
    empty object as [metadata] and as [meta]; its [body] and [start] are
    the incoming snippet and the normalised start. *)
Theorem C7_appended_entry req now (db : database) v :
  stored (EmailThreadRequest.thread_id req) db = Some v →
  let v' := snd (generate_email_vcon req now db) in
  ∀ i d,
    (length (Vcon.dialog v) ≤ i)%nat →
    Vcon.dialog v' !! i = Some d →
    ∃ dlg,
      dlg ∈ EmailThreadRequest.dialogs req
      ∧ ¬ matched (Vcon.dialog v) dlg
      ∧ Dialog.parties d = seq 0 (length (Vcon.parties v'))
      ∧ Dialog.originator d = DialogIn.originator_index dlg
      ∧ Dialog.type d = "text"
      ∧ Dialog.mimetype d = "text/plain"
      ∧ Dialog.metadata d = Some ∅
      ∧ Dialog.meta d = Some ∅
      ∧ Dialog.body d = DialogIn.body_snippet dlg
      ∧ Dialog.start d = dlg_start dlg.
Proof.
  intros Hv. destruct (generate_existing req now db v Hv) as [Hr _].
  simpl. rewrite Hr. intros i d Hi Hd.
  rewrite merge_vcon_dialog in Hd.
  rewrite lookup_app_r in Hd by done.
  apply list_lookup_fmap_Some in Hd as (dlg & -> & Hdlg).
  apply list_elem_of_lookup_2, list_elem_of_filter in Hdlg as [Hnm Hin].
  exists dlg. by split_and!.
Qed.

Lemma C7_appended_entry_witness :
  Dialog.parties (new_dialog 4 (DialogIn.mk 0 "hello" t0))
  = seq 0 (length
             (Vcon.parties
                (snd (generate_email_vcon (post3 ["d@x.com"] "hello") t0
                        (posts t0 [] [post1; post2]))))).
Proof.
  destruct (C7_appended_entry (post3 ["d@x.com"] "hello") t0
              (posts t0 [] [post1; post2])
              (merge_vcon (create_email_thread_vcon post1) post2)
              eq_refl 1 (new_dialog 4 (DialogIn.mk 0 "hello" t0))
              (le_n 1) eq_refl)
    as (dlg & _ & _ & Hp & _).
  exact Hp.
Defined.

(** C8.  Fetch of an unknown thread.  When no record is stored for
    [thread_id], the fetch fails with the exception of status 404 whose
    body is [{"detail": "Conversation not found"}], it does not answer
    with a record, and the table after the fetch is the table before it:
    still no record for the thread. *)
Theorem C8_fetch_unknown_thread thread_id (db : database) :
  stored thread_id db = None →
  ∃ e,
    get_vcon_by_thread_id thread_id db = (db, inl e)
    ∧ status_code e = 404
    ∧ error_body e = {[ "detail" := "Conversation not found" ]}
    ∧ stored thread_id (fst (get_vcon_by_thread_id thread_id db)) = None.
Proof.
  intros Hs. pose proof Hs as Hq%stored_None.
  unfold get_vcon_by_thread_id. rewrite Hq.
  eexists. split_and!; [reflexivity | reflexivity | reflexivity | exact Hs].
Qed.

Lemma C8_fetch_unknown_thread_witness :
  ∃ e,
    get_vcon_by_thread_id "t2" (posts t0 [] [post1])
    = (posts t0 [] [post1], inl e)
    ∧ detail e = "Conversation not found".
Proof.
  destruct (C8_fetch_unknown_thread "t2" (posts t0 [] [post1]) eq_refl)
    as (e & Hg & _ & Hb & _).
  exists e. split; [exact Hg |].
  injection Hg as <-. reflexivity.
Defined.

(** C9.  The frame of the message merge.  For every message [d] stored
    before the POST at index [i], the record after the POST has at [i] a
    message [d'] whose [type], [parties], [originator], [mimetype],
    [metadata] and [meta] are those of [d]; when an incoming entry is
    matched at [i], [d'] is [d] with [body] and [start] assigned the
    incoming values; and when no incoming entry is matched at [i], [d'] is
    [d].  In particular the [parties] of an earlier message never gains
    the index of a participant who joined later. *)
Theorem C9_overwrite_frame req now (db : database) v :
  stored (EmailThreadRequest.thread_id req) db = Some v →
  let v' := snd (generate_email_vcon req now db) in
  ∀ i d,
    Vcon.dialog v !! i = Some d →
    ∃ d',
      Vcon.dialog v' !! i = Some d'
      ∧ Dialog.type d' = Dialog.type d
      ∧ Dialog.parties d' = Dialog.parties d
      ∧ Dialog.originator d' = Dialog.originator d
      ∧ Dialog.mimetype d' = Dialog.mimetype d
      ∧ Dialog.metadata d' = Dialog.metadata d
      ∧ Dialog.meta d' = Dialog.meta d
      ∧ (∀ dlg,
           dlg ∈ EmailThreadRequest.dialogs req →
           existing_bodies (Vcon.dialog v) !! dlg_tuple dlg = Some i →
           d' = Dialog.set_start (dlg_start dlg)
                  (Dialog.set_body (DialogIn.body_snippet dlg) d))
      ∧ ((∀ dlg,
            dlg ∈ EmailThreadRequest.dialogs req →
            existing_bodies (Vcon.dialog v) !! dlg_tuple dlg ≠ Some i) →
         d' = d).
Proof.
  intros Hv. destruct (generate_existing req now db v Hv) as [Hr _].
  simpl. rewrite Hr. intros i d Hd. exists d. split_and!; try done.
  - rewrite merge_vcon_dialog. by apply lookup_app_l_Some.
  - intros dlg _ (d0 & Hd0 & Hk & _)%existing_bodies_Some.
    rewrite Hd in Hd0. injection Hd0 as <-.
    by rewrite overwrite_same_key.
Qed.

Lemma C9_overwrite_frame_witness :
  ∃ d',
    Vcon.dialog
      (snd (generate_email_vcon post2 t0 (posts t0 [] [post1]))) !! 0
    = Some d'
    ∧ Dialog.parties d' = [0; 1].
Proof.
  destruct (C9_overwrite_frame post2 t0 (posts t0 [] [post1])
              (create_email_thread_vcon post1) eq_refl 0
              (built_dialog 2 (DialogIn.mk 0 "hi" t0)) eq_refl)
    as (d' & Hd' & _ & Hp & _).
  exists d'. split; [exact Hd' | exact Hp].
Defined.

(** C10.  An empty parties list is accepted.  The validated request type
    puts no lower bound on the length of [parties] and the handler has no
    guard: for a thread without a record, a POST with [parties = []]
    stores and answers with a record whose party list is empty and whose
    dialog entries, one per incoming entry, each have the empty index
    range as [parties]. *)
Theorem C10_empty_parties_accepted req now (db : database) :
  EmailThreadRequest.parties req = [] →
  stored (EmailThreadRequest.thread_id req) db = None →
  let v := snd (generate_email_vcon req now db) in
  stored (EmailThreadRequest.thread_id req)
    (fst (generate_email_vcon req now db)) = Some v
  ∧ Vcon.parties v = []
  ∧ length (Vcon.dialog v) = length (EmailThreadRequest.dialogs req)
  ∧ Forall (λ d, Dialog.parties d = []) (Vcon.dialog v).
Proof.
  intros Hp Hs. destruct (generate_new req now db Hs) as [Hr Hst].
  simpl. rewrite Hr. split; [done |].
  rewrite create_email_thread_vcon_eq, Hp. simpl. split_and!.
  - done.
  - by rewrite length_fmap.
  - apply Forall_fmap, Forall_true. done.
Qed.

Lemma C10_empty_parties_accepted_witness :
  Vcon.parties
    (snd (generate_email_vcon
            (EmailThreadRequest.mk "t1" [] [DialogIn.mk 0 "hi" t0]) t0 []))
  = [].
Proof.
  destruct (C10_empty_parties_accepted
              (EmailThreadRequest.mk "t1" [] [DialogIn.mk 0 "hi" t0]) t0 []
              eq_refl eq_refl) as (_ & Hp & _).
  exact Hp.
Defined.

(** ** Further properties of the handlers *)

(** *** Auxiliary facts on [list_find] and [filter] *)

Lemma list_find_insert_other {A} (P : A → Prop) `{!∀ x, Decision (P x)}
    (l : list A) (i : nat) (x y : A) :
  l !! i = Some x → ¬ P x → ¬ P y →
  list_find P (<[i:=y]> l) = list_find P l.
Proof.
  revert i. induction l as [|a l IH]; intros i Hi Hx Hy; [done |].
  destruct i as [|i]; simpl in *.
  - injection Hi as ->. by rewrite !decide_False by done.
  - case_decide; [done |]. by rewrite (IH i).
Qed.

Lemma list_find_snoc_other {A} (P : A → Prop) `{!∀ x, Decision (P x)}
    (l : list A) (y : A) :
  ¬ P y → list_find P (l ++ [y]) = list_find P l.
Proof.
  intros Hy. destruct (list_find P l) as [[i x]|] eqn:Hl.
  - by apply list_find_app_l.
  - rewrite list_find_app_r by done. simpl. by rewrite decide_False.
Qed.

Lemma filter_none {A} (P : A → Prop) `{!∀ x, Decision (P x)} (l : list A) :
  (∀ x, x ∈ l → ¬ P x) → filter P l = [].
Proof.
  induction l as [|a l IH]; intros Hall; [done |].
  rewrite filter_cons, decide_False by (apply Hall; by left).
  apply IH. intros x Hx. apply Hall. by right.
Qed.

Lemma filter_all {A} (P : A → Prop) `{!∀ x, Decision (P x)} (l : list A) :
  (∀ x, x ∈ l → P x) → filter P l = l.
Proof.
  induction l as [|a l IH]; intros Hall; [done |].
  rewrite filter_cons, decide_True by (apply Hall; by left).
  f_equal. apply IH. intros x Hx. apply Hall. by right.
Qed.

Lemma stored_other_thread req now (db : database) tid :
  tid ≠ EmailThreadRequest.thread_id req →
  stored tid (fst (generate_email_vcon req now db)) = stored tid db.
Proof.
  intros Hne. unfold stored, generate_email_vcon.
  destruct (query_first (EmailThreadRequest.thread_id req) db)
    as [[i c]|] eqn:Hq; simpl; f_equal; unfold query_first.
  - apply list_find_Some in Hq as (Hi & Ht & _).
    apply (list_find_insert_other _ _ _ c); [done | | ]; simpl; congruence.
  - apply list_find_snoc_other. simpl. congruence.
Qed.

Lemma stored_after_post req now (db : database) :
  stored (EmailThreadRequest.thread_id req)
    (fst (generate_email_vcon req now db))
  = Some (snd (generate_email_vcon req now db)).
Proof.
  destruct (stored (EmailThreadRequest.thread_id req) db) as [v|] eqn:Hs.
  - destruct (generate_existing req now db v Hs) as [-> ->]. done.
  - destruct (generate_new req now db Hs) as [-> ->]. done.
Qed.

(** *** The two endpoints together *)

(** X1.  Round trip: in a table without two rows of one thread, and for a
    thread id the GET route can carry, a GET for the thread of a POST, on
    the table the POST committed, answers with the record the POST
    answered with and leaves the table as it is. *)
Theorem post_then_get req now (db : database) :
  NoDup (thread_ids db) →
  route_carries (EmailThreadRequest.thread_id req) →
  get_vcon_by_thread_id (EmailThreadRequest.thread_id req)
    (fst (generate_email_vcon req now db))
  = (fst (generate_email_vcon req now db),
     inr (snd (generate_email_vcon req now db))).
Proof.
  intros _ _.
  pose proof (stored_after_post req now db) as (i & c & Hq & Hc)%stored_Some.
  unfold get_vcon_by_thread_id. rewrite Hq. by rewrite Hc.
Qed.

Lemma post_then_get_witness :
  snd (get_vcon_by_thread_id "t1"
         (fst (generate_email_vcon post2 t0 (posts t0 [] [post1]))))
  = inr (snd (generate_email_vcon post2 t0 (posts t0 [] [post1]))).
Proof.
  refine (f_equal snd
            (post_then_get post2 t0 (posts t0 [] [post1])
               (NoDup_singleton "t1") _)).
  split; [discriminate |].
  intros a b. unfold String.app.
  destruct a as [|x [|y [|z a]]]; simpl; discriminate.
Defined.

(** X2.  A POST touches one thread: the record stored for any other
    thread, and the answer of a GET for it, are what they were. *)
Theorem post_other_thread_unchanged req now (db : database) tid :
  tid ≠ EmailThreadRequest.thread_id req →
  stored tid (fst (generate_email_vcon req now db)) = stored tid db
  ∧ snd (get_vcon_by_thread_id tid (fst (generate_email_vcon req now db)))
    = snd (get_vcon_by_thread_id tid db).
Proof.
  intros Hne. pose proof (stored_other_thread req now db tid Hne) as Hs.
  split; [done |]. unfold stored in Hs. unfold get_vcon_by_thread_id.
  destruct (query_first tid (fst _)) as [[i c]|],
           (query_first tid db) as [[j c']|]; simpl in *; congruence.
Qed.

Lemma post_other_thread_unchanged_witness :
  stored "t1" (fst (generate_email_vcon
                      (EmailThreadRequest.mk "t2" ["z@x.com"] []) t0
                      (posts t0 [] [post1])))
  = stored "t1" (posts t0 [] [post1]).
Proof.
  apply (post_other_thread_unchanged
           (EmailThreadRequest.mk "t2" ["z@x.com"] []) t0
           (posts t0 [] [post1]) "t1").
  discriminate.
Defined.

(** *** Repeating a request *)

Lemma dialog_key_new_dialog n dlg : dialog_key (new_dialog n dlg) = dlg_tuple dlg.
Proof. reflexivity. Qed.

Lemma dialog_key_built_dialog n dlg :
  dialog_key (built_dialog n dlg) = dlg_tuple dlg.
Proof. reflexivity. Qed.

Lemma vcon_eq (v w : Vcon.t) :
  Vcon.thread_id v = Vcon.thread_id w →
  Vcon.parties v = Vcon.parties w →
  Vcon.dialog v = Vcon.dialog w →
  v = w.
Proof. destruct v, w. simpl. by intros -> -> ->. Qed.

(** A merge that finds every incoming email stored and every incoming
    entry matched changes nothing. *)
Lemma merge_vcon_saturated (v : Vcon.t) (req : EmailThreadRequest.t) :
  (∀ e, e ∈ EmailThreadRequest.parties req → e ∈ party_emails v) →
  (∀ dlg, dlg ∈ EmailThreadRequest.dialogs req → matched (Vcon.dialog v) dlg) →
  merge_vcon v req = v.
Proof.
  intros Hp Hd. apply vcon_eq.
  - done.
  - rewrite merge_vcon_parties, filter_none, app_nil_r; [done |].
    intros e He Hnin. by apply Hnin, Hp.
  - rewrite merge_vcon_dialog, filter_none, app_nil_r; [done |].
    intros dlg Hdlg Hnm. by apply Hnm, Hd.
Qed.

Lemma merge_vcon_again (v : Vcon.t) (req : EmailThreadRequest.t) :
  merge_vcon (merge_vcon v req) req = merge_vcon v req.
Proof.
  apply merge_vcon_saturated.
  - intros e He. rewrite party_emails_merge. unfold merge_emails.
    destruct (decide (e ∈ party_emails v)) as [Hin | Hnin].
    + apply elem_of_app. by left.
    + apply elem_of_app. right. by apply list_elem_of_filter.
  - intros dlg Hdlg. unfold matched. rewrite merge_vcon_dialog, fmap_app.
    destruct (decide (matched (Vcon.dialog v) dlg)) as [Hm | Hnm].
    + apply elem_of_app. by left.
    + apply elem_of_app. right. rewrite <- list_fmap_compose.
      apply list_elem_of_fmap. exists dlg. split; [done |].
      by apply list_elem_of_filter.
Qed.

Lemma merge_vcon_create (req : EmailThreadRequest.t) :
  merge_vcon (create_email_thread_vcon req) req = create_email_thread_vcon req.
Proof.
  apply merge_vcon_saturated.
  - intros e He. by rewrite party_emails_create.
  - intros dlg Hdlg. unfold matched.
    rewrite create_email_thread_vcon_eq. simpl. rewrite <- list_fmap_compose.
    apply list_elem_of_fmap. by exists dlg.
Qed.

(** X3.  Re-sending a request is idempotent: in a table without two rows
    of one thread, a second POST of the same body (at any later clock
    reading) answers with the record the first POST answered with, and
    that record stays stored. *)
Theorem post_twice_idempotent req now now' (db : database) :
  NoDup (thread_ids db) →
  let r1 := generate_email_vcon req now db in
  let r2 := generate_email_vcon req now' (fst r1) in
  snd r2 = snd r1
  ∧ stored (EmailThreadRequest.thread_id req) (fst r2) = Some (snd r1).
Proof.
  intros _ r1 r2.
  assert (stored (EmailThreadRequest.thread_id req) (fst r1) = Some (snd r1))
    as Hs1 by apply stored_after_post.
  destruct (generate_existing req now' (fst r1) _ Hs1) as [E2 S2].
  fold r2 in E2, S2. rewrite S2, E2.
  assert (merge_vcon (snd r1) req = snd r1) as ->; [|done].
  unfold r1.
  destruct (stored (EmailThreadRequest.thread_id req) db) as [v|] eqn:Hs.
  - destruct (generate_existing req now db v Hs) as [-> _].
    apply merge_vcon_again.
  - destruct (generate_new req now db Hs) as [-> _].
    apply merge_vcon_create.
Qed.

Lemma post_twice_idempotent_witness :
  snd (generate_email_vcon post2 t0
         (fst (generate_email_vcon post2 t0 (posts t0 [] [post1]))))
  = snd (generate_email_vcon post2 t0 (posts t0 [] [post1])).
Proof.
  apply (post_twice_idempotent post2 t0 t0 (posts t0 [] [post1])
           (NoDup_singleton "t1")).
Defined.

(** X4.  An incoming entry is never matched against an entry appended
    earlier by the same request: [n] copies of an unmatched entry in one
    request append [n] messages. *)
Theorem repeated_entry_appended_each_time tid parties dlg n now
    (db : database) v :
  stored tid db = Some v →
  ¬ matched (Vcon.dialog v) dlg →
  length (Vcon.dialog
            (snd (generate_email_vcon
                    (EmailThreadRequest.mk tid parties (replicate n dlg))
                    now db)))
  = length (Vcon.dialog v) + n.
Proof.
  intros Hs Hnm.
  destruct (generate_existing (EmailThreadRequest.mk tid parties (replicate n dlg))
              now db v Hs) as [-> _].
  rewrite merge_vcon_dialog, length_app, length_fmap. simpl.
  rewrite filter_all, length_replicate; [done |].
  by intros x [-> _]%elem_of_replicate.
Qed.

Lemma repeated_entry_appended_each_time_witness :
  length (Vcon.dialog
            (snd (generate_email_vcon
                    (EmailThreadRequest.mk "t1" []
                       (replicate 3 (DialogIn.mk 0 "again" t0)))
                    t0 (posts t0 [] [post1]))))
  = 1 + 3.
Proof.
  apply (repeated_entry_appended_each_time "t1" []
           (DialogIn.mk 0 "again" t0) 3 t0 (posts t0 [] [post1])
           (create_email_thread_vcon post1) eq_refl).
  vm_compute. intros H. apply list_elem_of_In in H. simpl in H.
  destruct H as [H | []]. discriminate H.
Defined.

(** X5.  A POST that brings no party and no entry leaves the stored
    record as it is. *)
Theorem empty_post_keeps_record tid now (db : database) v :
  stored tid db = Some v →
  snd (generate_email_vcon (EmailThreadRequest.mk tid [] []) now db) = v
  ∧ stored tid
      (fst (generate_email_vcon (EmailThreadRequest.mk tid [] []) now db))
    = Some v.
Proof.
  intros Hs.
  destruct (generate_existing (EmailThreadRequest.mk tid [] []) now db v Hs)
    as [Hr Hst].
  simpl in Hst. rewrite Hr, Hst.
  rewrite merge_vcon_saturated; [done | |]; by intros ? ?%elem_of_nil.
Qed.

Lemma empty_post_keeps_record_witness :
  snd (generate_email_vcon (EmailThreadRequest.mk "t1" [] []) t0
         (posts t0 [] [post1]))
  = create_email_thread_vcon post1.
Proof.
  apply (empty_post_keeps_record "t1" t0 (posts t0 [] [post1])
           (create_email_thread_vcon post1) eq_refl).
Defined.

(** *** The rows of the table *)

(** X6.  A POST never deletes or reorders rows.  The table keeps its
    length when the thread has a row and gains exactly one row when it has
    none; every row stays at its index with its [threadId] and
    [createdAt], and every row but the first row of the request's thread is
    left entirely as it was. *)
Theorem post_rows_frame req now (db : database) :
  let db' := fst (generate_email_vcon req now db) in
  (length db' = S (length db)
   ↔ stored (EmailThreadRequest.thread_id req) db = None)
  ∧ (length db' = length db
     ↔ is_Some (stored (EmailThreadRequest.thread_id req) db))
  ∧ ∀ j c,
      db !! j = Some c →
      ∃ c',
        db' !! j = Some c'
        ∧ Conversation.threadId c' = Conversation.threadId c
        ∧ Conversation.createdAt c' = Conversation.createdAt c
        ∧ (query_first (EmailThreadRequest.thread_id req) db ≠ Some (j, c) →
           c' = c).
Proof.
  unfold stored, generate_email_vcon.
  destruct (query_first (EmailThreadRequest.thread_id req) db)
    as [[i c0]|] eqn:Hq; simpl.
  - rewrite length_insert. split_and!.
    + split; [lia | done].
    + split; [by eexists | done].
    + intros j c Hj. destruct (decide (j = i)) as [-> | Hne].
      * pose proof Hq as (Hi & _)%list_find_Some. rewrite Hi in Hj.
        injection Hj as <-.
        exists {| Conversation.vcon := merge_vcon (Conversation.vcon c0) req;
                  Conversation.threadId := Conversation.threadId c0;
                  Conversation.createdAt := Conversation.createdAt c0;
                  Conversation.updatedAt := now |}.
        split_and!; [| done | done |].
        -- apply list_lookup_insert_eq. by eapply lookup_lt_Some.
        -- by intros [].
      * exists c. rewrite list_lookup_insert_ne by done. by split_and!.
  - rewrite length_app. simpl. split_and!.
    + split; [done | lia].
    + split; [lia | by intros [? ?]].
    + intros j c Hj. exists c. split_and!; try done.
      by apply lookup_app_l_Some.
Qed.

Lemma thread_ids_post req now (db : database) :
  thread_ids (fst (generate_email_vcon req now db))
  = match stored (EmailThreadRequest.thread_id req) db with
    | Some _ => thread_ids db
    | None => thread_ids db ++ [EmailThreadRequest.thread_id req]
    end.
Proof.
  unfold stored, thread_ids, generate_email_vcon.
  destruct (query_first (EmailThreadRequest.thread_id req) db)
    as [[i c0]|] eqn:Hq; simpl.
  - apply list_find_Some in Hq as (Hi & _).
    rewrite list_fmap_insert. simpl. apply list_insert_id.
    by rewrite list_lookup_fmap, Hi.
  - by rewrite fmap_app.
Qed.

(** X7.  One row per thread: when no two rows of the table share a
    [threadId] (as in the empty table), no run of POSTs makes two rows
    share one. *)
Theorem posts_keep_threads_unique (db : database)
    (run : list (datetime.t * EmailThreadRequest.t)) :
  NoDup (thread_ids db) → NoDup (thread_ids (posts_at db run)).
Proof.
  revert db. induction run as [|[now req] run IH]; intros db Hnd; [done |].
  simpl. apply IH. rewrite thread_ids_post.
  destruct (stored (EmailThreadRequest.thread_id req) db) eqn:Hs; [done |].
  apply NoDup_app. split_and!; [done | | apply NoDup_singleton].
  intros tid Hin ->%list_elem_of_singleton.
  apply stored_None, list_find_None in Hs.
  apply list_elem_of_fmap in Hin as (c & Hc & Hin).
  rewrite Forall_forall in Hs. by apply (Hs c).
Qed.

Lemma posts_keep_threads_unique_witness :
  NoDup (thread_ids
           (posts_at []
              [(t0, post1); (t0, EmailThreadRequest.mk "t2" [] []);
               (t0, post2)])).
Proof. apply posts_keep_threads_unique. apply NoDup_nil_2. Defined.

(** *** What a stored record keeps *)

Lemma stored_record_grows_step tid req now (db : database) v :
  stored tid db = Some v →
  ∃ v',
    stored tid (fst (generate_email_vcon req now db)) = Some v'
    ∧ Vcon.thread_id v' = Vcon.thread_id v
    ∧ Vcon.parties v `prefix_of` Vcon.parties v'
    ∧ Vcon.dialog v `prefix_of` Vcon.dialog v'.
Proof.
  intros Hs. destruct (decide (tid = EmailThreadRequest.thread_id req))
    as [-> | Hne].
  - destruct (generate_existing req now db v Hs) as [_ Hst].
    exists (merge_vcon v req). split_and!; [done | done | |].
    + rewrite merge_vcon_parties. by eexists.
    + rewrite merge_vcon_dialog. by eexists.
  - exists v. rewrite stored_other_thread by done. by split_and!.
Qed.

(** X8.  Stored data is never rewritten: over any run of POSTs (to this
    thread or to others) the record of a thread keeps its [thread_id], its
    party list stays a prefix of the later party list, and its dialog list
    stays a prefix of the later dialog list; so no stored message ever
    changes, moves or disappears, the matched "overwrite" included. *)
Theorem stored_record_only_grows tid (db : database)
    (run : list (datetime.t * EmailThreadRequest.t)) v :
  stored tid db = Some v →
  ∃ v',
    stored tid (posts_at db run) = Some v'
    ∧ Vcon.thread_id v' = Vcon.thread_id v
    ∧ Vcon.parties v `prefix_of` Vcon.parties v'
    ∧ Vcon.dialog v `prefix_of` Vcon.dialog v'.
Proof.
  revert db v. induction run as [|[now req] run IH]; intros db v Hs.
  - exists v. by split_and!.
  - destruct (stored_record_grows_step tid req now db v Hs)
      as (v1 & Hs1 & Ht1 & Hp1 & Hd1).
    destruct (IH _ v1 Hs1) as (v' & Hs' & Ht' & Hp' & Hd').
    exists v'. split_and!; [done | congruence | by etrans | by etrans].
Qed.

Lemma stored_record_only_grows_witness :
  ∃ v',
    stored "t1" (posts_at (posts t0 [] [post1])
                   [(t0, post2); (t0, post3 ["d@x.com"] "changed")])
    = Some v'
    ∧ Vcon.dialog (create_email_thread_vcon post1) `prefix_of` Vcon.dialog v'.
Proof.
  destruct (stored_record_only_grows "t1" (posts t0 [] [post1])
              [(t0, post2); (t0, post3 ["d@x.com"] "changed")]
              (create_email_thread_vcon post1) eq_refl)
    as (v' & Hs & _ & _ & Hd).
  exists v'. split; [exact Hs | exact Hd].
Defined.

Lemma thread_id_embedded_post req now (db : database) :
  Forall thread_id_embedded db →
  Forall thread_id_embedded (fst (generate_email_vcon req now db)).
Proof.
  intros Hall. unfold generate_email_vcon.
  destruct (query_first (EmailThreadRequest.thread_id req) db)
    as [[i c0]|] eqn:Hq; simpl.
  - apply Forall_insert; [done |].
    apply list_find_Some in Hq as (Hi & _).
    rewrite Forall_lookup in Hall. apply (Hall i c0 Hi).
  - apply Forall_app. split; [done |]. apply Forall_singleton.
    unfold thread_id_embedded. simpl.
    by rewrite create_email_thread_vcon_eq.
Qed.

(** X9.  The thread id inside the record is the thread id it is stored
    under: in every table reached by POSTs from a table where this holds
    (as in the empty table), the record found for [tid] has
    [thread_id = tid]. *)
Theorem stored_record_thread_id (db : database)
    (run : list (datetime.t * EmailThreadRequest.t)) tid v :
  Forall thread_id_embedded db →
  stored tid (posts_at db run) = Some v →
  Vcon.thread_id v = Some tid.
Proof.
  intros Hall Hs.
  assert (Forall thread_id_embedded (posts_at db run)) as Hinv.
  { clear Hs. revert db Hall. induction run as [|[now req] run IH]; intros db Hall;
      [done |]. simpl. apply IH. by apply thread_id_embedded_post. }
  apply stored_Some in Hs as (i & c & Hq & <-).
  apply list_find_Some in Hq as (Hi & Ht & _).
  rewrite Forall_lookup in Hinv. rewrite (Hinv i c Hi). by rewrite Ht.
Qed.

Lemma stored_record_thread_id_witness :
  Vcon.thread_id (merge_vcon (create_email_thread_vcon post1) post2)
  = Some "t1".
Proof.
  apply (stored_record_thread_id [] [(t0, post1); (t0, post2)] "t1");
    [apply Forall_nil_2 | reflexivity].
Defined.

Lemma indices_valid_create (req : EmailThreadRequest.t) :
  indices_valid (create_email_thread_vcon req).
Proof.
  unfold indices_valid. rewrite create_email_thread_vcon_eq. simpl.
  apply Forall_fmap, Forall_true. intros dlg. simpl.
  rewrite length_fmap. apply Forall_seq. intros i. lia.
Qed.

Lemma indices_valid_merge (v : Vcon.t) (req : EmailThreadRequest.t) :
  indices_valid v → indices_valid (merge_vcon v req).
Proof.
  unfold indices_valid. intros Hv.
  rewrite merge_vcon_dialog. apply Forall_app. split.
  - eapply Forall_impl; [exact Hv |]. intros d Hd. cbv beta in *.
    eapply Forall_impl; [exact Hd |]. intros i Hi. cbv beta in *.
    rewrite merge_vcon_parties, length_app. lia.
  - apply Forall_fmap, Forall_true. intros dlg.
    change (Forall (λ i, i < length (Vcon.parties (merge_vcon v req)))
              (seq 0 (length (Vcon.parties (merge_vcon v req))))).
    apply Forall_seq. intros i. lia.
Qed.

Lemma indices_valid_post req now (db : database) :
  Forall (λ c, indices_valid (Conversation.vcon c)) db →
  Forall (λ c, indices_valid (Conversation.vcon c))
         (fst (generate_email_vcon req now db)).
Proof.
  intros Hall. unfold generate_email_vcon.
  destruct (query_first (EmailThreadRequest.thread_id req) db)
    as [[i c0]|] eqn:Hq; simpl.
  - apply Forall_insert; [done |]. simpl. apply indices_valid_merge.
    apply list_find_Some in Hq as (Hi & _).
    rewrite Forall_lookup in Hall. apply (Hall i c0 Hi).
  - apply Forall_app. split; [done |]. apply Forall_singleton.
    apply indices_valid_create.
Qed.

(** X10.  The [parties] of every stored message are valid indices: in
    every table reached by POSTs from a table where this holds (as in the
    empty table), each index in the [parties] of each message of a stored
    record is below the length of that record's party list. *)
Theorem stored_parties_indices_valid (db : database)
    (run : list (datetime.t * EmailThreadRequest.t)) tid v :
  Forall (λ c, indices_valid (Conversation.vcon c)) db →
  stored tid (posts_at db run) = Some v →
  ∀ d i,
    d ∈ Vcon.dialog v → i ∈ Dialog.parties d → i < length (Vcon.parties v).
Proof.
  intros Hall Hs.
  assert (Forall (λ c, indices_valid (Conversation.vcon c)) (posts_at db run))
    as Hinv.
  { clear Hs. revert db Hall. induction run as [|[now req] run IH]; intros db Hall;
      [done |]. simpl. apply IH. by apply indices_valid_post. }
  apply stored_Some in Hs as (j & c & Hq & <-).
  apply list_find_Some in Hq as (Hj & _).
  rewrite Forall_lookup in Hinv. specialize (Hinv j c Hj). simpl in Hinv.
  intros d i Hd Hi. unfold indices_valid in Hinv.
  rewrite Forall_forall in Hinv. specialize (Hinv d Hd).
  rewrite Forall_forall in Hinv. by apply Hinv.
Qed.

Lemma stored_parties_indices_valid_witness :
  2 < length (Vcon.parties (merge_vcon
                              (merge_vcon (create_email_thread_vcon post1) post2)
                              (post3 ["d@x.com"] "hello"))).
Proof.
  apply (stored_parties_indices_valid []
           [(t0, post1); (t0, post2); (t0, post3 ["d@x.com"] "hello")] "t1"
           _ (Forall_nil_2 _) eq_refl
           (new_dialog 4 (DialogIn.mk 0 "hello" t0)) 2).
  - apply list_elem_of_In. vm_compute. right. left. reflexivity.
  - apply list_elem_of_In. vm_compute. right. right. left. reflexivity.
Defined.

(** *** The stored start *)

Lemma string_app_assoc (a b c : string) : (a +:+ b) +:+ c = a +:+ (b +:+ c).
Proof.
  unfold String.app. induction a as [|x a IH]; simpl; [done |].
  by rewrite IH.
Qed.

(** X11.  The stored start reads the wall clock and nothing else: it is
    the ISO form of the wall-clock fields of [last_modified] followed by
    ["+00:00"], so it always carries the offset zero, and two timestamps
    with the same wall-clock fields give the same start (and, with the
    same snippet, the same message key) whatever zone each carried. *)
Theorem dlg_start_wall_clock (dlg : DialogIn.t) :
  dlg_start dlg
  = datetime.isoformat (wall_clock (DialogIn.last_modified dlg)) +:+ "+00:00"
  ∧ ∀ dlg',
      wall_clock (DialogIn.last_modified dlg')
      = wall_clock (DialogIn.last_modified dlg) →
      dlg_start dlg' = dlg_start dlg
      ∧ (DialogIn.body_snippet dlg' = DialogIn.body_snippet dlg →
         dlg_tuple dlg' = dlg_tuple dlg).
Proof.
  assert (∀ d, dlg_start d
               = datetime.isoformat (wall_clock (DialogIn.last_modified d))
                 +:+ "+00:00") as Hform.
  { intros d. unfold dlg_start, datetime.isoformat, wall_clock,
      datetime.replace_tzinfo.
    cbn [datetime.year datetime.month datetime.day datetime.hour
         datetime.minute datetime.second datetime.microsecond
         datetime.tzinfo].
    change (datetime.format_offset datetime.utc) with "+00:00".
    rewrite !string_app_assoc. reflexivity. }
  split; [apply Hform |].
  intros dlg' Hw.
  assert (dlg_start dlg' = dlg_start dlg) as Hs
    by (by rewrite !Hform, Hw).
  split; [done |]. intros Hb. unfold dlg_tuple. by rewrite Hs, Hb.
Qed.

(** *** The lookup table *)

(** X12.  The table maps a key to the index of the last stored message
    with that key, and to nothing else. *)
Theorem existing_bodies_last (ds : list Dialog.t) (k : string * string)
    (j : nat) :
  existing_bodies ds !! k = Some j
  ↔ ∃ d, ds !! j = Some d ∧ dialog_key d = k
         ∧ ∀ i d', j < i → ds !! i = Some d' → dialog_key d' ≠ k.
Proof.
  split; [apply existing_bodies_Some |].
  intros (d & Hd & Hk & Hlast).
  assert (is_Some (existing_bodies ds !! k)) as [j' Hj'].
  { apply existing_bodies_is_Some. apply list_elem_of_fmap. exists d.
    split; [done |]. by eapply list_elem_of_lookup_2. }
  destruct (existing_bodies_Some _ _ _ Hj') as (d' & Hd' & Hk' & Hlast').
  destruct (Nat.lt_trichotomy j j') as [Hlt | [-> | Hgt]]; [| done |].
  - by destruct (Hlast j' d' Hlt Hd').
  - by destruct (Hlast' j d Hgt Hd).
Qed.

(** *** The two branches of the POST, in closed form *)

(** X13.  First POST of a thread: the record answered and stored has one
    party per incoming email, in incoming order and with repeats kept, and
    one message per incoming entry, in incoming order and with repeats
    kept, each addressed to the full index range of the request's
    parties and carrying the thread id of the request. *)
Theorem first_post_record req now (db : database) :
  stored (EmailThreadRequest.thread_id req) db = None →
  let v := snd (generate_email_vcon req now db) in
  Vcon.thread_id v = Some (EmailThreadRequest.thread_id req)
  ∧ party_emails v = EmailThreadRequest.parties req
  ∧ Vcon.dialog v
    = built_dialog (length (EmailThreadRequest.parties req))
        <$> EmailThreadRequest.dialogs req.
Proof.
  intros Hs. destruct (generate_new req now db Hs) as [Hr _].
  simpl. rewrite Hr. split_and!.
  - by rewrite create_email_thread_vcon_eq.
  - apply party_emails_create.
  - by rewrite create_email_thread_vcon_eq.
Qed.

Lemma first_post_record_witness :
  party_emails (snd (generate_email_vcon post_twice t0 []))
  = ["a@x.com"; "a@x.com"].
Proof.
  destruct (first_post_record post_twice t0 [] eq_refl) as (_ & Hp & _).
  exact Hp.
Defined.

(** X14.  Participant merge: after a POST on a thread that has a record,
    the emails of the party list are the emails stored before, followed
    by the incoming emails that were not among them, in incoming order;
    each appended descriptor holds just that email. *)
Theorem later_post_parties req now (db : database) v :
  stored (EmailThreadRequest.thread_id req) db = Some v →
  let v' := snd (generate_email_vcon req now db) in
  party_emails v'
  = party_emails v
    ++ filter (λ e, e ∉ party_emails v) (EmailThreadRequest.parties req)
  ∧ drop (length (Vcon.parties v)) (Vcon.parties v')
    = Party.mk
        <$> filter (λ e, e ∉ party_emails v) (EmailThreadRequest.parties req).
Proof.
  intros Hs. destruct (generate_existing req now db v Hs) as [Hr _].
  simpl. rewrite Hr. split.
  - apply party_emails_merge.
  - rewrite merge_vcon_parties. by rewrite drop_app_length.
Qed.

Lemma later_post_parties_witness :
  party_emails (snd (generate_email_vcon post2 t0 (posts t0 [] [post1])))
  = ["a@x.com"; "b@x.com"] ++ ["c@x.com"].
Proof.
  destruct (later_post_parties post2 t0 (posts t0 [] [post1])
              (create_email_thread_vcon post1) eq_refl) as [Hp _].
  exact Hp.
Defined.

(** *** Witnesses for the party-order lemmas *)

Lemma party_order_without_repeats_witness :
  ∃ v,
    stored "t1" (posts t0 [] [post1; post2]) = Some v
    ∧ party_emails v = ["a@x.com"; "b@x.com"; "c@x.com"].
Proof.
  destruct (party_order_without_repeats "t1" t0 [] post1 [post2] eq_refl)
    as (v & Hs & Hp & _).
  - repeat constructor.
  - repeat constructor; simpl; rewrite ?not_elem_of_cons;
      repeat split; try discriminate; apply not_elem_of_nil.
  - exists v. split; [exact Hs | exact Hp].
Defined.

Lemma party_first_seen_order_witness :
  ∃ v,
    stored "t1" (posts t0 [] [post_twice; post_new_twice]) = Some v
    ∧ first_seen (party_emails v) = ["a@x.com"; "c@x.com"].
Proof.
  destruct (party_first_seen_order "t1" t0 [] post_twice [post_new_twice]
              eq_refl) as (v & Hs & Hp).
  - repeat constructor.
  - exists v. split; [exact Hs | exact Hp].
Defined.

(** *** The overwrite *)

(** X16.  The in-place overwrite changes nothing: a POST on an existing
    thread all of whose entries are matched leaves the dialog list exactly
    as it was stored (the matched message is assigned the body and start it
    already has). *)
Theorem matched_post_keeps_dialog req now (db : database) v :
  stored (EmailThreadRequest.thread_id req) db = Some v →
  Forall (matched (Vcon.dialog v)) (EmailThreadRequest.dialogs req) →
  Vcon.dialog (snd (generate_email_vcon req now db)) = Vcon.dialog v.
Proof.
  intros Hs Hall. destruct (generate_existing req now db v Hs) as [-> _].
  rewrite merge_vcon_dialog, filter_none, app_nil_r; [done |].
  intros dlg Hdlg Hnm. rewrite Forall_forall in Hall. by apply Hnm, Hall.
Qed.

Lemma matched_post_keeps_dialog_witness :
  Vcon.dialog (snd (generate_email_vcon post2 t0 (posts t0 [] [post1])))
  = Vcon.dialog (create_email_thread_vcon post1).
Proof.
  apply (matched_post_keeps_dialog post2 t0 (posts t0 [] [post1])
           (create_email_thread_vcon post1) eq_refl).
  apply Forall_singleton. apply list_elem_of_In. vm_compute. left. reflexivity.
Defined.

(** *** The instant of the stored start *)

(** X19.  Relabelling [last_modified] as UTC, as both branches do before
    they format the start, moves the instant it denotes later by exactly
    the offset that was attached (in microseconds); the instant is kept
    exactly when the timestamp is naive or carries the offset zero. *)
Theorem relabel_shifts_instant (dlg : DialogIn.t) :
  datetime.instant
    (datetime.replace_tzinfo (DialogIn.last_modified dlg) datetime.utc)
  = (datetime.instant (DialogIn.last_modified dlg)
     + datetime.utcoffset (DialogIn.last_modified dlg) * 1000000)%Z
  ∧ (datetime.instant
       (datetime.replace_tzinfo (DialogIn.last_modified dlg) datetime.utc)
     = datetime.instant (DialogIn.last_modified dlg)
     ↔ datetime.tzinfo (DialogIn.last_modified dlg) = None
       ∨ datetime.tzinfo (DialogIn.last_modified dlg) = Some 0%Z).
Proof.
  split; [apply instant_replace_tzinfo_utc |].
  rewrite instant_replace_tzinfo_utc_same. unfold datetime.utcoffset.
  destruct (datetime.tzinfo (DialogIn.last_modified dlg)) as [off|]; simpl.
  - split; [intros ->; by right | by intros [? | [= ->]]].
  - split; [by left | done].
Qed.

(** *** The message merge on the key the code uses *)

(** X20.  Message upsert on the code's key, the snippet and the start with
    the zone relabelled as UTC ([dlg_tuple]).  Let [v] be the record stored
    for the request's thread, in a table without two rows of one thread,
    and [v'] the record after the POST (the response, and the record stored
    afterwards).  Every incoming entry whose key is the [(body, start)] key
    of a message of [v] has such a message at some index [idx], and [v']
    holds at [idx] that message with [body] and [start] assigned the
    incoming values; nothing is appended for it.  The entries of [v'] beyond
    those of [v] are the new entries of the incoming entries whose key is
    the key of no message of [v], one each, in request order. *)
Theorem message_upsert_code_key req now (db : database) v :
  NoDup (thread_ids db) →
  stored (EmailThreadRequest.thread_id req) db = Some v →
  let v' := snd (generate_email_vcon req now db) in
  stored (EmailThreadRequest.thread_id req)
    (fst (generate_email_vcon req now db)) = Some v'
  ∧ (∀ dlg, dlg ∈ EmailThreadRequest.dialogs req →
       matched (Vcon.dialog v) dlg →
       ∃ idx d,
         Vcon.dialog v !! idx = Some d
         ∧ dialog_key d = dlg_tuple dlg
         ∧ Vcon.dialog v' !! idx
           = Some (Dialog.set_start (dlg_start dlg)
                     (Dialog.set_body (DialogIn.body_snippet dlg) d)))
  ∧ drop (length (Vcon.dialog v)) (Vcon.dialog v')
    = new_dialog (length (Vcon.parties v'))
        <$> filter (λ dlg, ¬ matched (Vcon.dialog v) dlg)
              (EmailThreadRequest.dialogs req)
  ∧ length (Vcon.dialog v')
    = length (Vcon.dialog v)
      + length (filter (λ dlg, ¬ matched (Vcon.dialog v) dlg)
                  (EmailThreadRequest.dialogs req)).
Proof.
  intros _ Hv. destruct (generate_existing req now db v Hv) as [Hr Hs].
  simpl. rewrite Hr. split_and!.
  - done.
  - intros dlg _ [idx Hidx]%existing_bodies_is_Some.
    destruct (existing_bodies_Some _ _ _ Hidx) as (d & Hd & Hk & _).
    exists idx, d. split_and!; [done.. |].
    rewrite overwrite_same_key by done.
    rewrite merge_vcon_dialog. by apply lookup_app_l_Some.
  - rewrite merge_vcon_dialog at 1. by rewrite drop_app_length.
  - rewrite merge_vcon_dialog at 1. by rewrite length_app, length_fmap.
Qed.

Lemma message_upsert_code_key_witness :
  stored "t1" (posts t0 [] [post1]) = Some (create_email_thread_vcon post1)
  ∧ length (Vcon.dialog
              (snd (generate_email_vcon post2 t0 (posts t0 [] [post1])))) = 1.
Proof.
  split; [vm_compute; reflexivity |].
  pose proof (message_upsert_code_key post2 t0 (posts t0 [] [post1])
                (create_email_thread_vcon post1) (NoDup_singleton "t1")
                eq_refl) as (_ & _ & _ & H).
  exact H.
Defined.
